(** * migrate: version tracking and sequencing of schema migrations

    A shallow embedding of the Go package [migrate]: the [Adapter] interface
    and the table adapter of [adapter.go], and the sequencer ([ExecQueries],
    [Up], [UpToVersion], [DownToVersion]) of the package's main file.

    Go values are modelled as follows.
    - [int] is [Z].  The only arithmetic of the package is [i + 1] on a slice
      index, which cannot leave the range of a 64-bit [int].
    - [error] is [option error]: [None] is [nil].
    - [ctx] and [db] give access to the database and, through the closures
      of the migrations, to the state of the caller.  All of it is one value
      of a type [W], the world, threaded through every call.
    - A function with effects is a function from the world to its result and
      the new world.  The sequencer also keeps the list of the calls it
      makes, in order: the statements on which operations run, and in
      which order, are statements on that list. *)

From Stdlib Require Import ZArith List String Bool Lia DecimalString.
Import ListNotations.

Open Scope string_scope.
Open Scope list_scope.
Open Scope Z_scope.

Infix "+++" := String.append (right associativity, at level 60).

(** ** Errors and formatting *)

(** An [error] is either the sentinel [sql.ErrNoRows], which the code
    compares by identity, or an error made of a message ([errors.New],
    [fmt.Errorf], the errors of a driver). *)
Inductive error : Type :=
| ErrNoRows
| errorString (s : string).

Definition Error (err : error) : string :=
  match err with
  | ErrNoRows => "sql: no rows in result set"
  | errorString s => s
  end.

(** The verb [%d] of [fmt] on an [int]. *)
Definition itoa (d : Z) : string := NilZero.string_of_int (Z.to_int d).

(** [fmt.Errorf(before ++ "%s", err)]. *)
Definition Errorf_s (before : string) (err : error) : error :=
  errorString (before +++ Error err).

(** [fmt.Errorf(before ++ "%d: %s", d, err)]. *)
Definition Errorf_d_s (before : string) (d : Z) (err : error) : error :=
  errorString (before +++ itoa d +++ ": " +++ Error err).

(** [fmt.Sprintf(before ++ "%d", d)], the message of a [Log] call. *)
Definition Sprintf_d (before : string) (d : Z) : string := before +++ itoa d.

(** ** The calls the package makes *)

(** One entry per call to the adapter, to a migration function or to the
    database, with the arguments that identify it and what it returned.  A
    migration function is an opaque closure: its call is identified by the
    version the sequencer computed for it ([i + 1]). *)
Inductive call : Type :=
| CallPrepare (ret : option error)
| CallQuery (ret : Z * option error)
| CallLog (msg : string)
| CallUp (version : Z) (ret : option error)
| CallDown (version : Z) (ret : option error)
| CallInsert (version : Z) (upgrade : bool) (comment : string) (ret : option error)
| CallExec (query : string) (ret : option error).

(** The calls to migration bodies, and the calls that write a record. *)
Definition is_body (c : call) : bool :=
  match c with
  | CallUp _ _ | CallDown _ _ => true
  | _ => false
  end.

Definition is_insert (c : call) : bool :=
  match c with
  | CallInsert _ _ _ _ => true
  | _ => false
  end.

Definition bodies (tr : list call) : list call := filter is_body tr.
Definition inserts (tr : list call) : list call := filter is_insert tr.

(** ** The interface [Adapter] *)

(** [Adapter] over a world [W], implemented by a type [T]. *)
Class Adapter (W T : Type) : Type := {
  Log : T -> string -> W -> W;
  PrepareSchemaVersions : T -> W -> option error * W;
  QuerySchemaVersion : T -> W -> (Z * option error) * W;
  InsertSchemaVersion : T -> Z -> bool -> string -> W -> option error * W
}.

(** ** Computations *)

Section Computations.

Variable W : Type.

(** A computation: from the world to a result, the new world and the
    calls made. *)
Definition M (A : Type) : Type := W -> A * W * list call.

Definition ret {A : Type} (a : A) : M A := fun w => (a, w, []).

Definition bind {A B : Type} (m : M A) (k : A -> M B) : M B :=
  fun w =>
    let '(a, w1, t1) := m w in
    let '(b, w2, t2) := k a w1 in
    (b, w2, t1 ++ t2).

(** A call to [f], recorded as [c] of its result. *)
Definition invoke {A : Type} (f : W -> A * W) (c : A -> call) : M A :=
  fun w => let '(a, w1) := f w in (a, w1, [c a]).

End Computations.

Arguments ret {W A} a.
Arguments bind {W A B} m k.
Arguments invoke {W A} f c.

Notation "x <- m ;; k" := (bind m (fun x => k))
  (at level 61, m at next level, right associativity).
Notation "m ;;; k" := (bind m (fun _ => k))
  (at level 61, right associativity).

(** ** Sequencer *)

Section Sequencer.

Variable W : Type.

(** [type MigrationFunc func(ctx context.Context, db *sql.DB) error] *)
Definition MigrationFunc : Type := W -> option error * W.

Record Migration : Type := {
  Comment : string;
  Up : MigrationFunc;
  Down : MigrationFunc
}.

(** *** [ExecQueries] *)

Section Queries.

(** [db.ExecContext(ctx, q)]: what the database does with a statement
    is not the package's; the result value is dropped by the code. *)
Variable ExecContext : string -> W -> option error * W.

(** [for i, q := range queries] of [ExecQueries]. *)
Fixpoint execLoop (i : Z) (queries : list string) : M W (option error) :=
  match queries with
  | [] => ret None
  | q :: rest =>
      err <- invoke (ExecContext q) (CallExec q) ;;
      match err with
      | Some err => ret (Some (Errorf_d_s "error with query " i err))
      | None => execLoop (i + 1) rest
      end
  end.

(** The migration function [ExecQueries(queries)]: the loop, as the
    opaque function a [Migration] holds. *)
Definition ExecQueries (queries : list string) : MigrationFunc :=
  fun w => let '(err, w1, _) := execLoop 0 queries w in (err, w1).

End Queries.

(** *** [UpToVersion], [Up] and [DownToVersion] *)

Context {T : Type} {AdapterT : Adapter W T}.

Definition callLog (adapter : T) (msg : string) : M W unit :=
  fun w => (tt, Log adapter msg w, [CallLog msg]).

Definition callPrepare (adapter : T) : M W (option error) :=
  invoke (PrepareSchemaVersions adapter) CallPrepare.

Definition callQuery (adapter : T) : M W (Z * option error) :=
  invoke (QuerySchemaVersion adapter) CallQuery.

Definition callInsert (adapter : T) (version : Z) (upgrade : bool)
    (comment : string) : M W (option error) :=
  invoke (InsertSchemaVersion adapter version upgrade comment)
         (CallInsert version upgrade comment).

(** The part of the body of the loop of [UpToVersion] that has effects
    (from the [Log] call to the end of the body); the result is the error
    the function returns with, [None] when the loop goes on. *)
Definition upStep (adapter : T) (version : Z) (m : Migration) : M W (option error) :=
  callLog adapter (Sprintf_d "Upgrading database to version " version) ;;;
  err <- invoke (Up m) (CallUp version) ;;
  match err with
  | Some err =>
      ret (Some (Errorf_d_s "error upgrading database to version " version err))
  | None =>
      err <- callInsert adapter version true (Comment m) ;;
      match err with
      | Some err =>
          ret (Some (Errorf_d_s "error inserting schema version for version " version err))
      | None => ret None
      end
  end.

(** [for i, m := range migrations] of [UpToVersion]; [i] is the index of
    the head of [migrations]. *)
Fixpoint upLoop (adapter : T) (targetVersion currentVersion : Z) (i : Z)
    (migrations : list Migration) : M W (option error) :=
  match migrations with
  | [] => ret None
  | m :: rest =>
      let version := i + 1 in
      if version <=? currentVersion then
        upLoop adapter targetVersion currentVersion (i + 1) rest
      else if version >? targetVersion then
        ret None
      else
        err <- upStep adapter version m ;;
        match err with
        | Some err => ret (Some err)
        | None => upLoop adapter targetVersion currentVersion (i + 1) rest
        end
  end.

Definition UpToVersion (adapter : T) (targetVersion : Z)
    (migrations : list Migration) : M W (option error) :=
  err <- callPrepare adapter ;;
  match err with
  | Some err => ret (Some (Errorf_s "error preparing schema versions: " err))
  | None =>
      r <- callQuery adapter ;;
      let '(currentVersion, err) := r in
      match err with
      | Some err =>
          ret (Some (Errorf_s "error querying current schema version: " err))
      | None =>
          callLog adapter (Sprintf_d "Current database version is " currentVersion) ;;;
          upLoop adapter targetVersion currentVersion 0 migrations
      end
  end.

(** The function [Up] of the package ([migrate.Up]); the name [Up] is
    the field of [Migration]. *)
Definition migrate_Up (adapter : T) (migrations : list Migration) : M W (option error) :=
  UpToVersion adapter (Z.of_nat (List.length migrations)) migrations.

(** The body of the loop of [DownToVersion] from its [Log] call on. *)
Definition downStep (adapter : T) (version : Z) (m : Migration) : M W (option error) :=
  callLog adapter (Sprintf_d "Downgrading database to version " version) ;;;
  err <- invoke (Down m) (CallDown version) ;;
  match err with
  | Some err =>
      ret (Some (Errorf_d_s "error upgrading database to version " version err))
  | None =>
      err <- callInsert adapter version false (Comment m) ;;
      match err with
      | Some err =>
          ret (Some (Errorf_d_s "error inserting schema_versions row for version " version err))
      | None => ret None
      end
  end.

(** [for i := len(migrations) - 1; i >= 0; i--] of [DownToVersion]; [n] is
    [i + 1], so the loop starts at [n = len(migrations)] and ends at
    [n = 0].  [migrations[i]] is in range all along (lemma
    [downLoop_in_range]); the branch for an index out of range is there
    for totality only. *)
Fixpoint downLoop (adapter : T) (targetVersion currentVersion : Z)
    (migrations : list Migration) (n : nat) : M W (option error) :=
  match n with
  | O => ret None
  | S i =>
      match nth_error migrations i with
      | None => ret None
      | Some m =>
          let version := Z.of_nat i + 1 in
          if version >? currentVersion then
            downLoop adapter targetVersion currentVersion migrations i
          else if version <=? targetVersion then
            ret None
          else
            err <- downStep adapter version m ;;
            match err with
            | Some err => ret (Some err)
            | None => downLoop adapter targetVersion currentVersion migrations i
            end
      end
  end.

Definition DownToVersion (adapter : T) (targetVersion : Z)
    (migrations : list Migration) : M W (option error) :=
  err <- callPrepare adapter ;;
  match err with
  | Some err => ret (Some (Errorf_s "error preparing schema versions: " err))
  | None =>
      r <- callQuery adapter ;;
      let '(currentVersion, err) := r in
      match err with
      | Some err =>
          ret (Some (Errorf_s "error querying current schema version: " err))
      | None =>
          callLog adapter (Sprintf_d "Current database version is " currentVersion) ;;;
          downLoop adapter targetVersion currentVersion migrations (List.length migrations)
      end
  end.

End Sequencer.

Arguments Comment {W} m.
Arguments Up {W} m.
Arguments Down {W} m.
Arguments execLoop {W} ExecContext i queries.
Arguments ExecQueries {W} ExecContext queries.
Arguments callLog {W T AdapterT} adapter msg.
Arguments callPrepare {W T AdapterT} adapter.
Arguments callQuery {W T AdapterT} adapter.
Arguments callInsert {W T AdapterT} adapter version upgrade comment.
Arguments upStep {W T AdapterT} adapter version m.
Arguments upLoop {W T AdapterT} adapter targetVersion currentVersion i migrations.
Arguments UpToVersion {W T AdapterT} adapter targetVersion migrations.
Arguments migrate_Up {W T AdapterT} adapter migrations.
Arguments downStep {W T AdapterT} adapter version m.
Arguments downLoop {W T AdapterT} adapter targetVersion currentVersion migrations n.
Arguments DownToVersion {W T AdapterT} adapter targetVersion migrations.

(** ** The database behind the table adapter *)

(** A row of [schema_versions], with the columns of the [CREATE TABLE]
    statement of [PrepareSchemaVersions]. *)
Record Row : Type := {
  version : Z;
  created_at : Z;
  upgrade : bool;
  comment : string
}.

(** What the adapter reads and writes through [db]:
    - the table [schema_versions], [None] until it is created, its rows in
      the order of their insertion;
    - [clock], the value [CURRENT_TIMESTAMP] had at the last [INSERT], in
      seconds, the resolution of the column on SQLite and MySQL;
    - [elapse n], the whole seconds by which [CURRENT_TIMESTAMP] has moved
      on from there when the row number [n] of the table (from [0]) is
      inserted: [0] when both statements run within the same second.  The
      clock of the database does not go back;
    - [tie], what the engine does with [ORDER BY created_at DESC LIMIT 1]
      when several rows carry the greatest time, which SQL leaves open: for
      a table it gives the position, among these rows, of the row returned,
      counted modulo their number;
    - the fault state of the driver, as the test driver of the package has
      it ([MockData.ExecErr], [MockData.QueryErr]): when set, every
      [ExecContext], respectively [QueryRowContext], fails with it. *)
Record Store : Type := {
  schema_versions : option (list Row);
  clock : Z;
  elapse : nat -> nat;
  tie : list Row -> nat;
  ExecErr : option error;
  QueryErr : option error
}.

(** Errors of the database itself.  Their text depends on the driver;
    nothing below depends on it. *)
Definition errNoSuchTable : error :=
  errorString "no such table: schema_versions".
Definition errDuplicateKey : error :=
  errorString "duplicate key: schema_versions.version".

(** [CREATE TABLE IF NOT EXISTS schema_versions (...)]. *)
Definition execCreateTable (st : Store) : option error * Store :=
  match ExecErr st with
  | Some err => (Some err, st)
  | None =>
      match schema_versions st with
      | Some _ => (None, st)
      | None =>
          (None, {| schema_versions := Some [];
                    clock := clock st;
                    elapse := elapse st;
                    tie := tie st;
                    ExecErr := ExecErr st;
                    QueryErr := QueryErr st |})
      end
  end.

(** [INSERT INTO schema_versions (version, upgrade, comment) VALUES (...)]
    with the three bind values.  [version] is the [PRIMARY KEY] of the
    table: a second row with the same version is refused.  [created_at]
    takes its default, [CURRENT_TIMESTAMP]: the time of the last [INSERT]
    and the seconds gone by since. *)
Definition execInsert (v : Z) (u : bool) (c : string) (st : Store)
    : option error * Store :=
  match ExecErr st with
  | Some err => (Some err, st)
  | None =>
      match schema_versions st with
      | None => (Some errNoSuchTable, st)
      | Some rows =>
          if existsb (fun r => version r =? v) rows then
            (Some errDuplicateKey, st)
          else
            let now := clock st + Z.of_nat (elapse st (List.length rows)) in
            (None, {| schema_versions :=
                        Some (rows ++ [{| version := v;
                                          created_at := now;
                                          upgrade := u;
                                          comment := c |}]);
                      clock := now;
                      elapse := elapse st;
                      tie := tie st;
                      ExecErr := ExecErr st;
                      QueryErr := QueryErr st |})
      end
  end.

(** The rows whose [created_at] is the greatest of the table, in the
    order of their insertion. *)
Definition newest (rows : list Row) : list Row :=
  filter (fun r => forallb (fun r' => created_at r' <=? created_at r) rows) rows.

(** [ORDER BY created_at DESC LIMIT 1]: a row whose [created_at] is the
    greatest, none when the table is empty.  Which one, when there are
    several, is the choice of the engine. *)
Definition latest (choice : list Row -> nat) (rows : list Row) : option Row :=
  nth_error (newest rows) (Nat.modulo (choice rows) (List.length (newest rows))).

(** Two paces of the statements of a program: every [INSERT] a second
    after the one before, and all of them within one second. *)
Definition everySecond : nat -> nat := fun _ => 1%nat.
Definition sameSecond : nat -> nat := fun _ => 0%nat.

(** An engine that returns, of the rows of the greatest time, the one
    inserted first. *)
Definition firstInserted : list Row -> nat := fun _ => 0%nat.

(** [db.QueryRowContext(ctx, `SELECT version FROM schema_versions ORDER BY
    created_at DESC LIMIT 1`)] followed by [row.Scan(&currentVersion)]: the
    value left in [currentVersion] (declared just before, so [0] unless
    [Scan] wrote it) and the error of [Scan]. *)
Definition scanLatestVersion (st : Store) : Z * option error :=
  match QueryErr st with
  | Some err => (0, Some err)
  | None =>
      match schema_versions st with
      | None => (0, Some errNoSuchTable)
      | Some rows =>
          match latest (tie st) rows with
          | None => (0, Some ErrNoRows)
          | Some r => (version r, None)
          end
      end
  end.

(** ** [TableAdapter] *)

Section Table.

(** The rest of the world: the other tables of the database, the state
    the closures of the migrations capture, the sink of the log. *)
Variable A : Type.

Record World : Type := {
  store : Store;
  app : A
}.

Definition with_store (w : World) (st : Store) : World :=
  {| store := st; app := app w |}.

(** [type LogFunc func(format string, v ...interface{})], applied to the
    formatted message. *)
Definition LogFuncType : Type := string -> World -> World.

Record TableAdapter : Type := {
  LogFunc : option LogFuncType;
  CreateTableOptions : string;
  PlaceholderVersion : string;
  PlaceholderUpgrade : string;
  PlaceholderComment : string
}.

Definition NewMySQLAdapter (log : option LogFuncType) : TableAdapter :=
  {| LogFunc := log;
     CreateTableOptions := " ENGINE=InnoDB DEFAULT CHARSET=utf8mb4";
     PlaceholderVersion := "?";
     PlaceholderUpgrade := "?";
     PlaceholderComment := "?" |}.

Definition NewPostgreSQLAdapter (log : option LogFuncType) : TableAdapter :=
  {| LogFunc := log;
     CreateTableOptions := "";
     PlaceholderVersion := "$1";
     PlaceholderUpgrade := "$2";
     PlaceholderComment := "$3" |}.

Definition NewSQLiteAdapter (log : option LogFuncType) : TableAdapter :=
  {| LogFunc := log;
     CreateTableOptions := "";
     PlaceholderVersion := "?";
     PlaceholderUpgrade := "?";
     PlaceholderComment := "?" |}.

(** The methods of [*TableAdapter].  [CreateTableOptions] and the
    placeholders change the text of the statement sent to the driver, not
    what the statement does to the table. *)
Definition TableAdapter_Log (t : TableAdapter) (msg : string) (w : World) : World :=
  match LogFunc t with
  | Some f => f msg w
  | None => w
  end.

Definition TableAdapter_PrepareSchemaVersions (t : TableAdapter) (w : World)
    : option error * World :=
  let '(err, st) := execCreateTable (store w) in
  (err, with_store w st).

Definition TableAdapter_QuerySchemaVersion (t : TableAdapter) (w : World)
    : (Z * option error) * World :=
  let '(currentVersion, err) := scanLatestVersion (store w) in
  match err with
  | Some ErrNoRows => ((0, None), w)
  | Some err => ((0, Some err), w)
  | None => ((currentVersion, None), w)
  end.

Definition TableAdapter_InsertSchemaVersion (t : TableAdapter) (version : Z)
    (upgrade : bool) (comment : string) (w : World) : option error * World :=
  let '(err, st) := execInsert version upgrade comment (store w) in
  (err, with_store w st).

(** [var _ Adapter = &TableAdapter{}] *)
#[export] Instance TableAdapter_Adapter : Adapter World TableAdapter := {
  Log := TableAdapter_Log;
  PrepareSchemaVersions := TableAdapter_PrepareSchemaVersions;
  QuerySchemaVersion := TableAdapter_QuerySchemaVersion;
  InsertSchemaVersion := TableAdapter_InsertSchemaVersion
}.

End Table.

Arguments store {A} w.
Arguments app {A} w.
Arguments with_store {A} w st.
Arguments LogFunc {A} t.
Arguments CreateTableOptions {A} t.
Arguments PlaceholderVersion {A} t.
Arguments PlaceholderUpgrade {A} t.
Arguments PlaceholderComment {A} t.
Arguments NewMySQLAdapter {A} log.
Arguments NewPostgreSQLAdapter {A} log.
Arguments NewSQLiteAdapter {A} log.
Arguments TableAdapter_Log {A} t msg w.
Arguments TableAdapter_PrepareSchemaVersions {A} t w.
Arguments TableAdapter_QuerySchemaVersion {A} t w.
Arguments TableAdapter_InsertSchemaVersion {A} t version upgrade comment w.

(** ** Notions the statements use *)

(** The elements of a slice with their versions: the element at index [j]
    of [indexed i l] carries [i + j + 1]. *)
Fixpoint indexed {X : Type} (i : Z) (l : list X) : list (Z * X) :=
  match l with
  | [] => []
  | x :: rest => (i + 1, x) :: indexed (i + 1) rest
  end.

(** The versions [lo + 1, ..., hi]. *)
Definition versions (lo hi : Z) : list Z :=
  map (fun j => lo + Z.of_nat j) (seq 1 (Z.to_nat (hi - lo))).

(** Steps run one after the other, until one returns an error. *)
Fixpoint steps {W : Type} (step : Z -> Migration W -> M W (option error))
    (todo : list (Z * Migration W)) : M W (option error) :=
  match todo with
  | [] => ret None
  | (v, m) :: rest =>
      err <- step v m ;;
      match err with
      | Some err => ret (Some err)
      | None => steps step rest
      end
  end.

(** The migrations a loop does not skip and does not stop at. *)
Definition pending {X : Type} (lo hi : Z) (p : Z * X) : bool :=
  (lo <? fst p) && (fst p <=? hi).

(** The calls of a step that succeeds. *)
Definition upCalls {W : Type} (p : Z * Migration W) : list call :=
  [CallLog (Sprintf_d "Upgrading database to version " (fst p));
   CallUp (fst p) None;
   CallInsert (fst p) true (Comment (snd p)) None].

Definition downCalls {W : Type} (p : Z * Migration W) : list call :=
  [CallLog (Sprintf_d "Downgrading database to version " (fst p));
   CallDown (fst p) None;
   CallInsert (fst p) false (Comment (snd p)) None].

(** The world a step of [UpToVersion] that succeeds leaves: the one of the
    log message, of the upgrade of the migration and of the record, each
    on the world of the one before. *)
Definition afterUpStep {W T : Type} {AdapterT : Adapter W T} (adapter : T)
    (w : W) (p : Z * Migration W) : W :=
  snd (InsertSchemaVersion adapter (fst p) true (Comment (snd p))
         (snd (Up (snd p)
                 (Log adapter
                    (Sprintf_d "Upgrading database to version " (fst p)) w)))).

(** The calls both functions start with when the store answers. *)
Definition preamble (currentVersion : Z) : list call :=
  [CallPrepare None;
   CallQuery (currentVersion, None);
   CallLog (Sprintf_d "Current database version is " currentVersion)].

(** The version the store gives for the current one: the version of the
    row the engine returns as the most recent, [0] without a row. *)
Definition recorded (st : Store) : Z :=
  match schema_versions st with
  | Some rows =>
      match latest (tie st) rows with
      | Some r => version r
      | None => 0
      end
  | None => 0
  end.

Definition rows_of (st : Store) : list Row :=
  match schema_versions st with
  | Some rows => rows
  | None => []
  end.

(** The table has been created. *)
Definition table_exists (st : Store) : Prop := schema_versions st <> None.

(** The driver answers. *)
Definition healthy (st : Store) : Prop :=
  ExecErr st = None /\ QueryErr st = None.

(** No row yet: the table is missing or empty. *)
Definition pristine (st : Store) : Prop :=
  rows_of st = [].

(** Rows carry versions from [0] up and times that are not after the
    clock. *)
Definition rows_wf (st : Store) : Prop :=
  forall r, In r (rows_of st) -> 0 <= version r /\ created_at r <= clock st.

(** From now on every [INSERT] comes a second at least after the one
    before it: no row written from now on carries the time of another
    row. *)
Definition paced (st : Store) : Prop :=
  forall n, (List.length (rows_of st) <= n)%nat -> (1 <= elapse st n)%nat.

(** A store as the adapter expects it: rows as above, and a driver whose
    fault, if it has one, is not the sentinel that [Scan] keeps for a query
    without a row. *)
Definition wf (st : Store) : Prop :=
  rows_wf st /\ QueryErr st <> Some ErrNoRows.

(** The log function leaves the store of the adapter alone. *)
Definition log_framed {A : Type} (t : TableAdapter A) : Prop :=
  forall f msg (w : World A), LogFunc t = Some f -> store (f msg w) = store w.

(** The log function and the bodies of the migrations leave the store of
    the adapter alone. *)
Record Framed {A : Type} (t : TableAdapter A) (ms : list (Migration (World A)))
    : Prop := {
  frame_log : log_framed t;
  frame_up : forall m w, In m ms -> store (snd (Up m w)) = store w;
  frame_down : forall m w, In m ms -> store (snd (Down m w)) = store w
}.

(** What a run of the steps of the migrations [l], of versions [R + 1]
    and up, leaves when it starts on the store [st] at version [R]: [n]
    steps are complete, each with its three calls and its record; then
    the run is over, or the body of version [R + n + 1] failed, or its
    record was refused. *)
Definition up_run {A : Type} (R : Z) (l : list (Migration (World A))) (st : Store)
    (res : option error) (st' : Store) (tr : list call) : Prop :=
  exists (n : nat) (tail : list call),
    (n <= List.length l)%nat
    /\ tr = flat_map upCalls (indexed R (firstn n l)) ++ tail
    /\ rows_wf st' /\ table_exists st'
    /\ recorded st' = R + Z.of_nat n
    /\ ExecErr st' = ExecErr st /\ QueryErr st' = QueryErr st
    /\ (forall r, In r (rows_of st') ->
          In r (rows_of st) \/ R < version r <= R + Z.of_nat n)
    /\ ((res = None /\ n = List.length l /\ tail = [])
        \/ (exists e,
              res = Some (Errorf_d_s "error upgrading database to version "
                            (R + Z.of_nat n + 1) e)
              /\ tail = [CallLog (Sprintf_d "Upgrading database to version "
                                    (R + Z.of_nat n + 1));
                         CallUp (R + Z.of_nat n + 1) (Some e)])
        \/ (exists m e,
              nth_error l n = Some m
              /\ res = Some (Errorf_d_s "error inserting schema version for version "
                               (R + Z.of_nat n + 1) e)
              /\ tail = [CallLog (Sprintf_d "Upgrading database to version "
                                    (R + Z.of_nat n + 1));
                         CallUp (R + Z.of_nat n + 1) None;
                         CallInsert (R + Z.of_nat n + 1) true (Comment m) (Some e)]
              /\ (ExecErr st' = Some e
                  \/ exists r, In r (rows_of st') /\ version r = R + Z.of_nat n + 1))).


(** ** The scenario of the tests *)

(** The state the closures of [TestDown] capture (the slices [up] and
    [down]), and what the log function of the test has been given. *)
Record TestData : Type := {
  up : list bool;
  down : list bool;
  logs : list string
}.

Definition setFlag (i : nat) (l : list bool) : list bool :=
  firstn i l ++ true :: skipn (S i) l.

Definition setUp (i : nat) (w : World TestData) : World TestData :=
  {| store := store w;
     app := {| up := setFlag i (up (app w));
               down := down (app w);
               logs := logs (app w) |} |}.

Definition setDown (i : nat) (w : World TestData) : World TestData :=
  {| store := store w;
     app := {| up := up (app w);
               down := setFlag i (down (app w));
               logs := logs (app w) |} |}.

(** [t.Logf] *)
Definition testLogf : LogFuncType TestData :=
  fun msg w =>
    {| store := store w;
       app := {| up := up (app w);
                 down := down (app w);
                 logs := logs (app w) ++ [msg] |} |}.

(** The migrations of [TestDown]: the upgrade of the second one fails the
    first time it runs. *)
Definition migration1 : Migration (World TestData) :=
  {| Comment := "example comment 1";
     Up := fun w => (None, setUp 0 w);
     Down := fun w => (None, setDown 0 w) |}.

Definition migration2 : Migration (World TestData) :=
  {| Comment := "example comment 2";
     Up := fun w =>
             if nth 1 (up (app w)) false then (None, w)
             else (Some (errorString "mock error"), setUp 1 w);
     Down := fun w => (None, setDown 1 w) |}.

Definition migration3 : Migration (World TestData) :=
  {| Comment := "example comment 3";
     Up := fun w => (None, setUp 2 w);
     Down := fun w => (None, setDown 2 w) |}.

Definition testMigrations : list (Migration (World TestData)) :=
  [migration1; migration2; migration3].

Definition testAdapter : TableAdapter TestData :=
  NewPostgreSQLAdapter (Some testLogf).

(** A database just opened: no table, a driver that answers.  The
    migrations are slow: every record comes a second after the one
    before. *)
Definition freshStore : Store :=
  {| schema_versions := None; clock := 0;
     elapse := everySecond; tie := firstInserted;
     ExecErr := None; QueryErr := None |}.

Definition freshWorld : World TestData :=
  {| store := freshStore;
     app := {| up := [false; false; false];
               down := [false; false; false];
               logs := [] |} |}.

(** The world a computation leaves. *)
Definition world_after {W X : Type} (r : X * W * list call) : W := snd (fst r).

(** The worlds of the test: after the first [Up], which fails at the second
    migration, and after the second [Up]. *)
Definition worldAfterUp1 : World TestData :=
  world_after (migrate_Up testAdapter testMigrations freshWorld).

Definition worldAfterUp2 : World TestData :=
  world_after (migrate_Up testAdapter testMigrations worldAfterUp1).

(** The world a [DownToVersion] with target 1 leaves after that. *)
Definition worldAfterDown : World TestData :=
  world_after (DownToVersion testAdapter 1 testMigrations worldAfterUp2).

(** The test driver of the package: [MockConn.ExecContext] on [MockData],
    here the fault of the store and the log of the statements. *)
Definition mockExecContext (query : string) (w : World TestData)
    : option error * World TestData :=
  match ExecErr (store w) with
  | Some err => (Some err, w)
  | None => (None, testLogf query w)
  end.


(** *** The same database when the program is quick *)

(** A database just opened on which the statements of a program run within
    one second, and whose engine returns, of the rows of the greatest time,
    the one inserted first. *)
Definition quickStore : Store :=
  {| schema_versions := None; clock := 0;
     elapse := sameSecond; tie := firstInserted;
     ExecErr := None; QueryErr := None |}.

Definition quickWorld : World TestData :=
  {| store := quickStore; app := app freshWorld |}.

Definition sqliteAdapter : TableAdapter TestData :=
  NewSQLiteAdapter (Some testLogf).

(** That database after [PrepareSchemaVersions] and the records of the
    versions 1, 2 and 3, in this order. *)
Definition quickInserted : World TestData :=
  let w0 := snd (PrepareSchemaVersions sqliteAdapter quickWorld) in
  let w1 := snd (InsertSchemaVersion sqliteAdapter 1 true "example comment 1" w0) in
  let w2 := snd (InsertSchemaVersion sqliteAdapter 2 true "example comment 2" w1) in
  snd (InsertSchemaVersion sqliteAdapter 3 true "example comment 3" w2).

(** ** Notions and inputs of the further properties *)

(** The second store comes from the first by creating the table and
    inserting rows, and by nothing else: the rows of the first are the
    first rows of the second, the faults of the driver are the same, the
    clock has not gone back, and a table that was there is still there. *)
Definition grows (st st' : Store) : Prop :=
  (exists new, rows_of st' = rows_of st ++ new)
  /\ ExecErr st' = ExecErr st /\ QueryErr st' = QueryErr st
  /\ clock st <= clock st'
  /\ (table_exists st -> table_exists st').

(** No two rows of the same version. *)
Definition one_row_per_version (st : Store) : Prop :=
  NoDup (map version (rows_of st)).

(** What the adapter and the sequencer keep of a store. *)
Definition keeps (st st' : Store) : Prop :=
  grows st st'
  /\ (rows_wf st -> rows_wf st')
  /\ (one_row_per_version st -> one_row_per_version st')
  /\ (paced st -> paced st').

(** The rows a run of steps that all succeed adds to a table of [n] rows
    last written to at time [c], one per step, in the order of the steps:
    each row carries the time of the row before and the seconds gone by
    since; [u] is the direction. *)
Fixpoint newRows {W : Type} (gap : nat -> nat) (n : nat) (c : Z) (u : bool)
    (todo : list (Z * Migration W)) : list Row :=
  match todo with
  | [] => []
  | (v, m) :: rest =>
      {| version := v; created_at := c + Z.of_nat (gap n);
         upgrade := u; comment := Comment m |}
      :: newRows gap (S n) (c + Z.of_nat (gap n)) u rest
  end.


(** A migration whose downgrade fails. *)
Definition migrationBad : Migration (World TestData) :=
  {| Comment := "example comment 2";
     Up := fun w => (None, setUp 1 w);
     Down := fun w => (Some (errorString "mock error"), w) |}.

(** A database left at version 5 by a longer list of migrations, of which
    the table holds the last row only. *)
Definition aheadWorld : World TestData :=
  {| store := {| schema_versions :=
                   Some [{| version := 5; created_at := 0; upgrade := true;
                            comment := "example comment 5" |}];
                 clock := 1; elapse := everySecond; tie := firstInserted;
                 ExecErr := None; QueryErr := None |};
     app := app freshWorld |}.


(** A database whose driver fails every statement. *)
Definition brokenWorld : World TestData :=
  {| store := {| schema_versions := None; clock := 0;
                 elapse := everySecond; tie := firstInserted;
                 ExecErr := Some (errorString "mock error");
                 QueryErr := None |};
     app := app freshWorld |}.

(** ** Facts on lists of versions *)

(** Splits the conjunctions of a goal, and nothing else. *)
Ltac splits := repeat match goal with |- _ /\ _ => split end.

Section Indexed.

Context {X : Type}.

Lemma indexed_length (l : list X) : forall i, List.length (indexed i l) = List.length l.
Proof. induction l; simpl; intros; [reflexivity | now rewrite IHl]. Qed.

Lemma indexed_In (l : list X) : forall i v x,
  In (v, x) (indexed i l) -> i < v <= i + Z.of_nat (List.length l).
Proof.
  induction l as [|y l IH]; simpl; intros i v x H; [contradiction|].
  destruct H as [H|H].
  - inversion H; subst; lia.
  - apply IH in H; lia.
Qed.

Lemma indexed_In_elem (l : list X) : forall i v x,
  In (v, x) (indexed i l) -> In x l.
Proof.
  induction l as [|y l IH]; simpl; intros i v x H; [contradiction|].
  destruct H as [H|H]; [inversion H; auto | eauto].
Qed.

Lemma indexed_app (l1 l2 : list X) : forall i,
  indexed i (l1 ++ l2) = indexed i l1 ++ indexed (i + Z.of_nat (List.length l1)) l2.
Proof.
  induction l1 as [|y l1 IH]; intros i.
  - simpl. now rewrite Z.add_0_r.
  - rewrite <- app_comm_cons. cbn [indexed List.length].
    rewrite IH, <- app_comm_cons. do 3 f_equal. lia.
Qed.

Lemma indexed_fst (l : list X) : forall i,
  map fst (indexed i l) = versions i (i + Z.of_nat (List.length l)).
Proof.
  unfold versions. induction l as [|y l IH]; intros i.
  - simpl. replace (i + 0 - i) with 0 by lia. reflexivity.
  - cbn [indexed map List.length]. rewrite IH.
    replace (i + Z.of_nat (S (List.length l)) - i) with (Z.of_nat (S (List.length l))) by lia.
    replace (i + 1 + Z.of_nat (List.length l) - (i + 1)) with (Z.of_nat (List.length l)) by lia.
    rewrite !Nat2Z.id. cbn [seq map]. f_equal.
    rewrite <- (seq_shift (List.length l) 1), map_map. apply map_ext. intros; lia.
Qed.

Lemma filter_none (f : Z * X -> bool) (l : list (Z * X)) :
  (forall p, In p l -> f p = false) -> filter f l = [].
Proof.
  induction l as [|p l IH]; simpl; intros H; [reflexivity|].
  rewrite (H p) by auto. apply IH. auto.
Qed.

Lemma pending_empty (lo hi : Z) (l : list X) i :
  hi <= lo \/ hi <= i \/ i + Z.of_nat (List.length l) <= lo ->
  filter (pending lo hi) (indexed i l) = [].
Proof.
  intros H. apply filter_none. intros [v x] Hin.
  apply indexed_In in Hin. unfold pending; simpl.
  destruct (Z.ltb_spec lo v), (Z.leb_spec v hi); simpl; try reflexivity; lia.
Qed.

(** The pending migrations are a slice of the list. *)
Lemma pending_slice (lo hi : Z) (l : list X) : forall i,
  filter (pending lo hi) (indexed i l)
  = indexed (Z.max lo i)
      (skipn (Z.to_nat (lo - i)) (firstn (Z.to_nat (hi - i)) l)).
Proof.
  induction l as [|x l IH]; intros i.
  - rewrite firstn_nil, skipn_nil. reflexivity.
  - cbn [indexed filter]. unfold pending at 1. cbn [fst].
    rewrite IH.
    destruct (Z.ltb_spec lo (i + 1)), (Z.leb_spec (i + 1) hi); cbn [andb].
    + replace (Z.to_nat (hi - i)) with (S (Z.to_nat (hi - (i + 1)))) by lia.
      replace (Z.to_nat (lo - i)) with O by lia.
      replace (Z.to_nat (lo - (i + 1))) with O by lia.
      cbn [firstn skipn indexed].
      replace (Z.max lo i) with i by lia.
      replace (Z.max lo (i + 1)) with (i + 1) by lia. reflexivity.
    + replace (Z.to_nat (hi - i)) with O by lia.
      replace (Z.to_nat (hi - (i + 1))) with O by lia.
      cbn [firstn]. rewrite !skipn_nil. reflexivity.
    + replace (Z.to_nat (hi - i)) with (S (Z.to_nat (hi - (i + 1)))) by lia.
      replace (Z.to_nat (lo - i)) with (S (Z.to_nat (lo - (i + 1)))) by lia.
      cbn [firstn skipn].
      replace (Z.max lo (i + 1)) with (Z.max lo i) by lia. reflexivity.
    + replace (Z.to_nat (hi - i)) with O by lia.
      replace (Z.to_nat (hi - (i + 1))) with O by lia.
      cbn [firstn]. rewrite !skipn_nil. reflexivity.
Qed.

Lemma firstn_snoc (l : list X) : forall n x,
  nth_error l n = Some x -> firstn (S n) l = firstn n l ++ [x].
Proof.
  induction l as [|y l IH]; intros [|n] x H; simpl in *; try discriminate.
  - now inversion H.
  - f_equal. now apply IH.
Qed.

End Indexed.

(** ** The loops as runs of steps *)

Section Loops.

Context {W T : Type} {AdapterT : Adapter W T}.
Variable adapter : T.

(** The loop of [UpToVersion] runs the step of each migration whose
    version is above the current one and not above the target. *)
Lemma upLoop_steps (targetVersion currentVersion : Z) (migrations : list (Migration W)) :
  forall i w,
    upLoop adapter targetVersion currentVersion i migrations w
    = steps (upStep adapter)
        (filter (pending currentVersion targetVersion) (indexed i migrations)) w.
Proof.
  induction migrations as [|m rest IH]; intros i w; [reflexivity|].
  cbn [upLoop indexed filter]. unfold pending at 1. cbn [fst].
  rewrite Z.gtb_ltb.
  destruct (Z.leb_spec (i + 1) currentVersion) as [Hc|Hc].
  - destruct (Z.ltb_spec currentVersion (i + 1)); [lia|]. cbn [andb]. apply IH.
  - destruct (Z.ltb_spec currentVersion (i + 1)); [|lia]. cbn [andb].
    destruct (Z.ltb_spec targetVersion (i + 1)) as [Ht|Ht].
    + destruct (Z.leb_spec (i + 1) targetVersion); [lia|].
      rewrite pending_empty by lia. reflexivity.
    + destruct (Z.leb_spec (i + 1) targetVersion); [|lia].
      cbn [steps]. unfold bind.
      destruct (upStep adapter (i + 1) m w) as [[[err|] w1] t1].
      * reflexivity.
      * rewrite IH. reflexivity.
Qed.

(** [migrations[i]] is in range in the loop of [DownToVersion]. *)
Lemma downLoop_in_range (migrations : list (Migration W)) (n i : nat) :
  (n <= List.length migrations)%nat -> (i < n)%nat ->
  nth_error migrations i <> None.
Proof. intros Hn Hi. apply nth_error_Some. lia. Qed.

(** The loop of [DownToVersion] runs, from the highest version down, the
    step of each migration whose version is above the target and not
    above the current one. *)
Lemma downLoop_steps (targetVersion currentVersion : Z) (migrations : list (Migration W)) :
  forall n, (n <= List.length migrations)%nat -> forall w,
    downLoop adapter targetVersion currentVersion migrations n w
    = steps (downStep adapter)
        (rev (filter (pending targetVersion currentVersion)
                (indexed 0 (firstn n migrations)))) w.
Proof.
  induction n as [|n IH]; intros Hn w; [reflexivity|].
  cbn [downLoop].
  destruct (nth_error migrations n) as [m|] eqn:Hm.
  2:{ exfalso. revert Hm. apply downLoop_in_range with (n := S n); lia. }
  rewrite (firstn_snoc _ _ _ Hm), indexed_app, filter_app, rev_app_distr.
  rewrite length_firstn, Nat.min_l by lia.
  cbn [indexed filter]. unfold pending at 1. cbn [fst].
  replace (0 + Z.of_nat n + 1) with (Z.of_nat n + 1) by lia.
  rewrite Z.gtb_ltb.
  destruct (Z.ltb_spec currentVersion (Z.of_nat n + 1)) as [Hc|Hc].
  - destruct (Z.leb_spec (Z.of_nat n + 1) currentVersion); [lia|].
    rewrite andb_false_r. cbn [rev Datatypes.app]. apply IH. lia.
  - destruct (Z.leb_spec (Z.of_nat n + 1) currentVersion); [|lia].
    rewrite andb_true_r.
    destruct (Z.leb_spec (Z.of_nat n + 1) targetVersion) as [Ht|Ht].
    + destruct (Z.ltb_spec targetVersion (Z.of_nat n + 1)); [lia|].
      rewrite pending_empty. { reflexivity. }
      rewrite length_firstn. lia.
    + destruct (Z.ltb_spec targetVersion (Z.of_nat n + 1)); [|lia].
      cbn [rev Datatypes.app steps]. unfold bind.
      destruct (downStep adapter (Z.of_nat n + 1) m w) as [[[err|] w1] t1].
      * reflexivity.
      * rewrite IH by lia. reflexivity.
Qed.

(** [UpToVersion] and [DownToVersion] when the store answers: the three
    calls of the preamble, then the pending steps. *)
Lemma UpToVersion_steps (targetVersion currentVersion : Z)
    (migrations : list (Migration W)) (w w1 w2 : W) :
  PrepareSchemaVersions adapter w = (None, w1) ->
  QuerySchemaVersion adapter w1 = ((currentVersion, None), w2) ->
  UpToVersion adapter targetVersion migrations w
  = let '(err, w3, tr) :=
      steps (upStep adapter)
        (filter (pending currentVersion targetVersion) (indexed 0 migrations))
        (Log adapter (Sprintf_d "Current database version is " currentVersion) w2) in
    (err, w3, preamble currentVersion ++ tr).
Proof.
  intros Hp Hq.
  unfold UpToVersion, bind, callPrepare, callQuery, callLog, invoke.
  rewrite Hp, Hq, upLoop_steps.
  destruct (steps _ _ _) as [[err w3] tr]. reflexivity.
Qed.

Lemma DownToVersion_steps (targetVersion currentVersion : Z)
    (migrations : list (Migration W)) (w w1 w2 : W) :
  PrepareSchemaVersions adapter w = (None, w1) ->
  QuerySchemaVersion adapter w1 = ((currentVersion, None), w2) ->
  DownToVersion adapter targetVersion migrations w
  = let '(err, w3, tr) :=
      steps (downStep adapter)
        (rev (filter (pending targetVersion currentVersion) (indexed 0 migrations)))
        (Log adapter (Sprintf_d "Current database version is " currentVersion) w2) in
    (err, w3, preamble currentVersion ++ tr).
Proof.
  intros Hp Hq.
  unfold DownToVersion, bind, callPrepare, callQuery, callLog, invoke.
  rewrite Hp, Hq, downLoop_steps by lia.
  rewrite firstn_all.
  destruct (steps _ _ _) as [[err w3] tr]. reflexivity.
Qed.

(** The world a run of upgrade steps that all succeed leaves is the world
    of its calls, one after the other. *)
Lemma steps_up_world (l : list (Z * Migration W)) :
  forall (w w' : W) (tr : list call),
    steps (upStep adapter) l w = (None, w', tr) ->
    w' = fold_left (afterUpStep adapter) l w.
Proof.
  induction l as [|[v m] l IH]; intros w w' tr H.
  - now inversion H.
  - cbn [steps] in H. unfold bind in H.
    destruct (upStep adapter v m w) as [[r1 w1] t1] eqn:E.
    assert (r1 = None -> w1 = afterUpStep adapter w (v, m)) as Hw1.
    { revert E. unfold upStep, afterUpStep, bind, callLog, callInsert, invoke, ret.
      cbn [fst snd].
      destruct (Up m _) as [[e|] wu];
        [intros E Hr; inversion E; subst; discriminate|].
      cbn [snd].
      destruct (InsertSchemaVersion adapter v true (Comment m) wu) as [[e|] wi];
        intros E Hr; inversion E; subst; [discriminate | reflexivity]. }
    destruct r1 as [e|]; [inversion H|].
    destruct (steps (upStep adapter) l w1) as [[r2 w2] t2] eqn:E2.
    inversion H; subst r2 w' tr; clear H.
    cbn [fold_left]. rewrite <- (Hw1 eq_refl). eapply IH, E2.
Qed.

End Loops.

(** ** Facts on the store *)

Lemma newest_In (rows : list Row) (r : Row) :
  In r (newest rows)
  <-> In r rows /\ forall r', In r' rows -> created_at r' <= created_at r.
Proof.
  unfold newest. rewrite filter_In, forallb_forall.
  split; intros [H1 H2]; (split; [assumption|]); intros r' Hr';
    specialize (H2 r' Hr'); now apply Z.leb_le.
Qed.

(** A table that is not empty has a row of the greatest time. *)
Lemma newest_exists (x : Row) (rows : list Row) :
  exists r, In r (x :: rows)
            /\ forall r', In r' (x :: rows) -> created_at r' <= created_at r.
Proof.
  revert x. induction rows as [|y rows IH]; intros x.
  - exists x. split; [now left|]. intros r' [<-|[]]. lia.
  - destruct (IH y) as (r & Hr & Hmax).
    destruct (Z.le_gt_cases (created_at r) (created_at x)) as [Hle|Hgt].
    + exists x. split; [now left|]. intros r' [<-|Hr']; [lia|].
      specialize (Hmax r' Hr'). lia.
    + exists r. split; [now right|]. intros r' [<-|Hr']; [lia|auto].
Qed.

Lemma newest_nonempty (rows : list Row) : rows <> [] -> newest rows <> [].
Proof.
  destruct rows as [|x rows]; [congruence|]. intros _ H.
  destruct (newest_exists x rows) as (r & Hr).
  apply newest_In in Hr. rewrite H in Hr. elim Hr.
Qed.

(** A row newer than the rows of the table is alone at the top. *)
Lemma newest_snoc (rows : list Row) (r : Row) :
  (forall r', In r' rows -> created_at r' < created_at r) ->
  newest (rows ++ [r]) = [r].
Proof.
  intros H. unfold newest. rewrite filter_app.
  assert (forall l, incl l rows ->
            filter (fun r0 => forallb (fun r' => created_at r' <=? created_at r0)
                                (rows ++ [r])) l = []) as Hold.
  { induction l as [|x l IH]; intros Hl; [reflexivity|].
    cbn [filter].
    assert (forallb (fun r' => created_at r' <=? created_at x) (rows ++ [r]) = false)
      as ->.
    { apply not_true_is_false. intros Hall.
      rewrite forallb_forall in Hall.
      assert (In r (rows ++ [r])) as Hr by (apply in_or_app; right; now left).
      specialize (Hall r Hr).
      apply Z.leb_le in Hall.
      specialize (H x (Hl x (or_introl eq_refl))). lia. }
    apply IH. intros y Hy. apply Hl. now right. }
  rewrite (Hold rows (incl_refl rows)). cbn [filter Datatypes.app].
  assert (forallb (fun r' => created_at r' <=? created_at r) (rows ++ [r]) = true)
    as ->; [|reflexivity].
  apply forallb_forall. intros r' Hr'. apply Z.leb_le.
  apply in_app_or in Hr' as [Hr'|[<-|[]]]; [specialize (H r' Hr')|]; lia.
Qed.

Lemma latest_snoc (choice : list Row -> nat) (rows : list Row) (r : Row) :
  (forall r', In r' rows -> created_at r' < created_at r) ->
  latest choice (rows ++ [r]) = Some r.
Proof.
  intros H. unfold latest. rewrite (newest_snoc rows r H).
  cbn [List.length]. rewrite Nat.mod_1_r. reflexivity.
Qed.

Lemma latest_max (choice : list Row -> nat) (rows : list Row) (r : Row) :
  latest choice rows = Some r ->
  In r rows /\ forall r', In r' rows -> created_at r' <= created_at r.
Proof.
  intros H. apply nth_error_In in H. now apply newest_In.
Qed.

Lemma latest_nil (choice : list Row -> nat) (rows : list Row) :
  latest choice rows = None -> rows = [].
Proof.
  destruct rows as [|x rows]; [reflexivity|]. intros H.
  apply nth_error_None in H.
  assert (newest (x :: rows) <> []) as Hne by (apply newest_nonempty; discriminate).
  assert (List.length (newest (x :: rows)) <> 0%nat) as Hlen
    by (destruct (newest (x :: rows)); [congruence | discriminate]).
  pose proof (Nat.mod_upper_bound (choice (x :: rows)) _ Hlen). lia.
Qed.

(** The engine returns a row of the table when it has one. *)
Lemma latest_some (choice : list Row -> nat) (x : Row) (rows : list Row) :
  exists r, latest choice (x :: rows) = Some r.
Proof.
  destruct (latest choice (x :: rows)) as [r|] eqn:E; [eauto|].
  apply latest_nil in E. discriminate.
Qed.

Lemma latest_empty (choice : list Row -> nat) : latest choice [] = None.
Proof. unfold latest. cbn [newest filter]. now destruct (Nat.modulo _ _). Qed.

Lemma recorded_pristine (st : Store) : pristine st -> recorded st = 0.
Proof.
  unfold pristine, rows_of, recorded. destruct (schema_versions st); [|reflexivity].
  intros ->. now rewrite latest_empty.
Qed.

Lemma rows_wf_pristine (st : Store) : pristine st -> rows_wf st.
Proof. unfold pristine, rows_wf. intros -> r []. Qed.

Lemma recorded_nonneg (st : Store) : rows_wf st -> 0 <= recorded st.
Proof.
  unfold rows_wf, rows_of, recorded. destruct (schema_versions st) as [rows|]; [|lia].
  destruct (latest (tie st) rows) as [r|] eqn:E; [|lia].
  intros H. apply latest_max in E. apply H, E.
Qed.

(** [CREATE TABLE IF NOT EXISTS] answers when the driver does, and leaves
    the rows as they are. *)
Lemma execCreateTable_ok (st : Store) :
  ExecErr st = None ->
  exists st', execCreateTable st = (None, st')
    /\ table_exists st' /\ rows_of st' = rows_of st /\ clock st' = clock st
    /\ ExecErr st' = ExecErr st /\ QueryErr st' = QueryErr st
    /\ (table_exists st -> st' = st).
Proof.
  intros He. unfold execCreateTable, table_exists, rows_of. rewrite He.
  destruct (schema_versions st) as [rows|] eqn:E.
  - exists st. rewrite E. repeat split; auto. discriminate.
  - eexists. split; [reflexivity|]. cbn. repeat split; auto; try discriminate.
    intros H; now elim H.
Qed.

Lemma execCreateTable_err (st st' : Store) (err : error) :
  execCreateTable st = (Some err, st') -> ExecErr st = Some err /\ st' = st.
Proof.
  unfold execCreateTable. destruct (ExecErr st).
  - intros H; inversion H; auto.
  - destruct (schema_versions st); discriminate.
Qed.

Lemma execCreateTable_None (st st' : Store) :
  execCreateTable st = (None, st') -> ExecErr st = None.
Proof.
  unfold execCreateTable. destruct (ExecErr st); [discriminate|reflexivity].
Qed.

Lemma recorded_rows (st : Store) :
  recorded st
  = match latest (tie st) (rows_of st) with Some r => version r | None => 0 end.
Proof.
  unfold recorded, rows_of.
  destruct (schema_versions st); [reflexivity | now rewrite latest_empty].
Qed.

(** The statement leaves the pace, the engine and the version read as
    they are, whatever it returns. *)
Lemma execCreateTable_same (st st' : Store) (err : option error) :
  execCreateTable st = (err, st') ->
  rows_of st' = rows_of st /\ clock st' = clock st
  /\ elapse st' = elapse st /\ tie st' = tie st
  /\ recorded st' = recorded st
  /\ (paced st -> paced st').
Proof.
  unfold execCreateTable.
  destruct (ExecErr st); [intros H; inversion H; subst; auto 10|].
  destruct (schema_versions st) as [rows|] eqn:E;
    intros H; inversion H; subst; clear H; [auto 10|].
  unfold paced, recorded, rows_of.
  cbn [schema_versions clock elapse tie]. rewrite E, latest_empty. auto 10.
Qed.

(** What a successful [INSERT] does: one row more, at the end, with the
    time of the clock, and nothing else; it needs the table, a driver that
    answers and a version the table does not hold yet. *)
Lemma execInsert_ok (v : Z) (u : bool) (c : string) (st st' : Store) :
  execInsert v u c st = (None, st') ->
  table_exists st'
  /\ rows_of st'
     = rows_of st
       ++ [{| version := v;
              created_at := clock st
                            + Z.of_nat (elapse st (List.length (rows_of st)));
              upgrade := u; comment := c |}]
  /\ clock st' = clock st + Z.of_nat (elapse st (List.length (rows_of st)))
  /\ ExecErr st' = ExecErr st /\ QueryErr st' = QueryErr st
  /\ ExecErr st = None
  /\ (forall r, In r (rows_of st) -> version r <> v).
Proof.
  unfold execInsert, table_exists, rows_of.
  destruct (ExecErr st) eqn:He; [discriminate|].
  destruct (schema_versions st) as [rows|]; [|discriminate].
  destruct (existsb _ rows) eqn:Hex; [discriminate|].
  intros H; inversion H; subst; clear H. cbn.
  repeat split; auto; try discriminate.
  intros r Hr Hv.
  assert (existsb (fun r => version r =? v) rows = true) as Ht.
  { apply existsb_exists. exists r. split; [assumption|]. now apply Z.eqb_eq. }
  congruence.
Qed.

(** It leaves the pace and the engine as they are. *)
Lemma execInsert_same (v : Z) (u : bool) (c : string) (st st' : Store)
    (err : option error) :
  execInsert v u c st = (err, st') ->
  elapse st' = elapse st /\ tie st' = tie st /\ (paced st -> paced st').
Proof.
  unfold execInsert.
  destruct (ExecErr st); [intros H; inversion H; subst; auto|].
  destruct (schema_versions st) as [rows|] eqn:E;
    [|intros H; inversion H; subst; auto].
  destruct (existsb _ rows); intros H; inversion H; subst; clear H; [auto|].
  unfold paced, rows_of. cbn [schema_versions elapse tie]. rewrite E.
  splits; auto. intros Hp n Hn. apply Hp.
  rewrite length_app in Hn. cbn [List.length] in Hn. lia.
Qed.

(** A refused [INSERT] changes nothing; it is refused for one of three
    reasons. *)
Lemma execInsert_err (v : Z) (u : bool) (c : string) (st st' : Store) (err : error) :
  execInsert v u c st = (Some err, st') ->
  st' = st
  /\ (ExecErr st = Some err
      \/ ~ table_exists st
      \/ exists r, In r (rows_of st) /\ version r = v).
Proof.
  unfold execInsert, table_exists, rows_of.
  destruct (ExecErr st) eqn:He.
  { intros H; inversion H; subst. auto. }
  destruct (schema_versions st) as [rows|].
  2:{ intros H; inversion H; subst. split; auto. }
  destruct (existsb _ rows) eqn:Hex; [|discriminate].
  intros H; inversion H; subst. split; [reflexivity|].
  right; right. apply existsb_exists in Hex as [r [Hr Hv]].
  exists r. split; [assumption|]. now apply Z.eqb_eq.
Qed.

(** A successful [INSERT] keeps the rows well formed, whatever the time. *)
Lemma execInsert_wf (v : Z) (u : bool) (c : string) (st st' : Store) :
  rows_wf st -> 0 <= v ->
  execInsert v u c st = (None, st') -> rows_wf st'.
Proof.
  intros Hwf Hv H.
  destruct (execInsert_ok _ _ _ _ _ H) as (_ & Hrows & Hclock & _).
  intros r Hr. rewrite Hrows in Hr. rewrite Hclock.
  apply in_app_or in Hr as [Hr|[<-|[]]].
  - destruct (Hwf r Hr). lia.
  - cbn. lia.
Qed.

(** After a successful [INSERT] that comes a second at least after the
    last one, the new row is the most recent one, whatever the engine. *)
Lemma execInsert_newer (v : Z) (u : bool) (c : string) (st st' : Store) :
  rows_wf st -> (1 <= elapse st (List.length (rows_of st)))%nat ->
  execInsert v u c st = (None, st') ->
  recorded st' = v.
Proof.
  intros Hwf Hgap H.
  destruct (execInsert_ok _ _ _ _ _ H) as (Hex & Hrows & Hclock & _).
  rewrite recorded_rows, Hrows, latest_snoc; [reflexivity|].
  intros r' Hr'. cbn. destruct (Hwf r' Hr') as [_ Hle]. lia.
Qed.

Lemma execInsert_recorded (v : Z) (u : bool) (c : string) (st st' : Store) :
  rows_wf st -> paced st -> 0 <= v ->
  execInsert v u c st = (None, st') ->
  rows_wf st' /\ paced st' /\ recorded st' = v.
Proof.
  intros Hwf Hp Hv H.
  destruct (execInsert_same _ _ _ _ _ _ H) as (_ & _ & Hp').
  split; [eapply execInsert_wf; eassumption|]. split; [auto|].
  eapply execInsert_newer; [exact Hwf | | exact H].
  apply Hp, Nat.le_refl.
Qed.

Lemma rows_wf_rows (st st' : Store) :
  rows_of st' = rows_of st -> clock st' = clock st -> rows_wf st -> rows_wf st'.
Proof. unfold rows_wf. intros -> ->. auto. Qed.

(** ** Facts on the table adapter *)

Section TableFacts.

Context {A : Type}.
Variable t : TableAdapter A.

Lemma Log_store (msg : string) (w : World A) :
  log_framed t -> store (Log t msg w) = store w.
Proof.
  intros H. cbn. unfold TableAdapter_Log.
  destruct (LogFunc t) eqn:E; [now apply H | reflexivity].
Qed.

Lemma Prepare_ok (w : World A) :
  ExecErr (store w) = None ->
  exists w1, PrepareSchemaVersions t w = (None, w1)
    /\ table_exists (store w1)
    /\ rows_of (store w1) = rows_of (store w)
    /\ clock (store w1) = clock (store w)
    /\ ExecErr (store w1) = None
    /\ QueryErr (store w1) = QueryErr (store w)
    /\ (table_exists (store w) -> store w1 = store w).
Proof.
  intros He. cbn. unfold TableAdapter_PrepareSchemaVersions.
  destruct (execCreateTable_ok _ He) as (st' & -> & Hex & Hrows & Hclock & He' & Hq & Hsame).
  eexists. split; [reflexivity|]. cbn. rewrite He' . auto 10.
Qed.

(** [PrepareSchemaVersions] leaves the rows, the pace, the engine and the
    version read as they are, whatever it returns. *)
Lemma Prepare_same (w w1 : World A) (err : option error) :
  PrepareSchemaVersions t w = (err, w1) ->
  rows_of (store w1) = rows_of (store w)
  /\ clock (store w1) = clock (store w)
  /\ recorded (store w1) = recorded (store w)
  /\ (paced (store w) -> paced (store w1))
  /\ (rows_wf (store w) -> rows_wf (store w1)).
Proof.
  cbn. unfold TableAdapter_PrepareSchemaVersions.
  destruct (execCreateTable (store w)) as [e st'] eqn:E.
  intros H; inversion H; subst; clear H. cbn [store with_store].
  destruct (execCreateTable_same _ _ _ E) as (Hr & Hc & _ & _ & Hrec & Hp).
  splits; auto. now apply rows_wf_rows.
Qed.

Lemma Prepare_inv (w w1 : World A) (err : option error) :
  PrepareSchemaVersions t w = (err, w1) ->
  match err with
  | Some e => ExecErr (store w) = Some e
  | None => ExecErr (store w) = None
  end.
Proof.
  cbn. unfold TableAdapter_PrepareSchemaVersions.
  destruct (execCreateTable (store w)) as [[e|] st'] eqn:E; intros H; inversion H; subst.
  - now apply execCreateTable_err in E.
  - now apply execCreateTable_None in E.
Qed.

Lemma Query_ok (w : World A) :
  QueryErr (store w) = None -> table_exists (store w) ->
  QuerySchemaVersion t w = ((recorded (store w), None), w).
Proof.
  intros Hq Hex. cbn.
  unfold TableAdapter_QuerySchemaVersion, scanLatestVersion, recorded, table_exists in *.
  rewrite Hq. destruct (schema_versions (store w)) as [rows|]; [|now elim Hex].
  destruct (latest _ rows); reflexivity.
Qed.

(** The query does not change the world, and answers without an error
    only when the driver does and the table is there. *)
Lemma Query_inv (w w2 : World A) (v : Z) :
  QueryErr (store w) <> Some ErrNoRows ->
  QuerySchemaVersion t w = ((v, None), w2) ->
  w2 = w /\ QueryErr (store w) = None /\ table_exists (store w)
  /\ v = recorded (store w).
Proof.
  intros Hs. cbn.
  unfold TableAdapter_QuerySchemaVersion, scanLatestVersion, recorded, table_exists.
  destruct (QueryErr (store w)) as [[|s]|]; [now elim Hs | intros H; inversion H |].
  destruct (schema_versions (store w)) as [rows|]; [|intros H; inversion H].
  destruct (latest _ rows); intros H; inversion H; subst; repeat split; discriminate.
Qed.

(** One step of [UpToVersion] on the table adapter. *)
Lemma upStep_table (v : Z) (m : Migration (World A)) (w w' : World A)
    (res : option error) (tr : list call) :
  log_framed t -> (forall w0, store (snd (Up m w0)) = store w0) ->
  upStep t v m w = (res, w', tr) ->
  (exists e,
      res = Some (Errorf_d_s "error upgrading database to version " v e)
      /\ tr = [CallLog (Sprintf_d "Upgrading database to version " v);
               CallUp v (Some e)]
      /\ store w' = store w)
  \/ (exists e,
      res = Some (Errorf_d_s "error inserting schema version for version " v e)
      /\ tr = [CallLog (Sprintf_d "Upgrading database to version " v);
               CallUp v None;
               CallInsert v true (Comment m) (Some e)]
      /\ execInsert v true (Comment m) (store w) = (Some e, store w'))
  \/ (res = None
      /\ tr = upCalls (v, m)
      /\ execInsert v true (Comment m) (store w) = (None, store w')).
Proof.
  intros Hlog Hup.
  unfold upStep, bind, callLog, callInsert, invoke, ret.
  pose proof (Hup (Log t (Sprintf_d "Upgrading database to version " v) w)) as Hs.
  rewrite Log_store in Hs by assumption.
  destruct (Up m _) as [[e|] w2]; cbn [snd] in Hs.
  - intros H; inversion H; subst. left. eauto.
  - cbn [InsertSchemaVersion TableAdapter_Adapter].
    unfold TableAdapter_InsertSchemaVersion. rewrite Hs.
    destruct (execInsert v true (Comment m) (store w)) as [[e|] st'];
      intros H; inversion H; subst; cbn.
    + right; left. eauto.
    + right; right. auto.
Qed.

End TableFacts.

(** ** Runs of upgrade steps on the table adapter *)

Section UpRuns.

Context {A : Type}.
Variable t : TableAdapter A.

Lemma steps_up_table (l : list (Migration (World A))) :
  forall (R : Z) (w w' : World A) (res : option error) (tr : list call),
    log_framed t ->
    (forall m w0, In m l -> store (snd (Up m w0)) = store w0) ->
    rows_wf (store w) -> paced (store w) -> table_exists (store w) ->
    0 <= R -> recorded (store w) = R ->
    steps (upStep t) (indexed R l) w = (res, w', tr) ->
    up_run R l (store w) res (store w') tr.
Proof.
  induction l as [|m l IH]; intros R w w' res tr Hlog Hup Hwf Hpc Hex HR Hrec H.
  - inversion H; subst res w' tr. exists O, []. cbn.
    rewrite Z.add_0_r. splits; auto.
  - cbn [indexed steps] in H. unfold bind in H.
    destruct (upStep t (R + 1) m w) as [[e w1] t1] eqn:E.
    apply upStep_table in E; [|assumption|intros; apply Hup; now left].
    destruct E as [(e0 & -> & -> & Hst)|[(e0 & -> & -> & Hins)|(-> & -> & Hins)]].
    + inversion H; subst res w' tr. exists O, ([CallLog (Sprintf_d "Upgrading database to version " (R + 1));
                                       CallUp (R + 1) (Some e0)] ++ []).
      rewrite Hst. cbn [firstn indexed flat_map Datatypes.app Z.of_nat List.length].
      rewrite !Z.add_0_r. splits; auto; try lia.
      right; left. eauto.
    + inversion H; subst res w' tr.
      apply execInsert_err in Hins as [Hst Hwhy].
      exists O, ([CallLog (Sprintf_d "Upgrading database to version " (R + 1));
                  CallUp (R + 1) None;
                  CallInsert (R + 1) true (Comment m) (Some e0)] ++ []).
      rewrite Hst. cbn [firstn indexed flat_map Datatypes.app Z.of_nat List.length].
      rewrite !Z.add_0_r. splits; auto; try lia.
      right; right. exists m, e0. splits; auto.
      destruct Hwhy as [Hw|[Hw|Hw]]; [now left | now elim Hw | now right].
    + destruct (steps (upStep t) (indexed (R + 1) l) w1) as [[res2 w2] t2] eqn:E2.
      inversion H; subst res w' tr; clear H.
      assert (0 <= R + 1) as HR1 by lia.
      destruct (execInsert_recorded _ _ _ _ _ Hwf Hpc HR1 Hins) as (Hwf1 & Hpc1 & Hrec1).
      destruct (execInsert_ok _ _ _ _ _ Hins) as (Hex1 & Hrows1 & _ & He1 & Hq1 & _ & _).
      apply IH in E2; auto; try lia; [|intros; apply Hup; now right].
      destruct E2 as (n & tail & Hn & -> & Hwf2 & Hex2 & Hrec2 & He2 & Hq2 & Hrows2 & Hcases).
      exists (S n), tail.
      replace (R + Z.of_nat (S n)) with (R + 1 + Z.of_nat n) by lia.
      cbn [firstn indexed flat_map List.length].
      splits; auto; try lia; try congruence.
      * intros r Hr. apply Hrows2 in Hr as [Hr|Hr]; [|right; lia].
        rewrite Hrows1 in Hr. apply in_app_or in Hr as [Hr|[<-|[]]]; [now left|].
        right. cbn. lia.
      * destruct Hcases as [(-> & -> & ->)|[(e & -> & ->)|(m' & e & Hm' & -> & -> & Hwhy)]].
        -- left. auto.
        -- right; left. eauto.
        -- right; right. exists m', e. auto.
Qed.

End UpRuns.

(** ** Facts on the calls of a run *)

Lemma firstn_incl {X : Type} (n : nat) (l : list X) (x : X) :
  In x (firstn n l) -> In x l.
Proof.
  intros H. rewrite <- (firstn_skipn n l). apply in_or_app. now left.
Qed.

Lemma skipn_incl {X : Type} (n : nat) (l : list X) (x : X) :
  In x (skipn n l) -> In x l.
Proof.
  intros H. rewrite <- (firstn_skipn n l). apply in_or_app. now right.
Qed.

Lemma firstn_clamp {X : Type} (l : list X) (T : Z) :
  firstn (Z.to_nat T) l
  = firstn (Z.to_nat (Z.min T (Z.of_nat (List.length l)))) l.
Proof.
  destruct (Z.le_gt_cases T (Z.of_nat (List.length l))).
  - now rewrite Z.min_l.
  - rewrite Z.min_r, Nat2Z.id, firstn_all by lia.
    apply firstn_all2. lia.
Qed.

Section Calls.

Context {W : Type}.

Lemma upCalls_In (c : call) (l : list (Migration W)) (R : Z) :
  In c (flat_map upCalls (indexed R l)) ->
  exists v (m : Migration W), R < v <= R + Z.of_nat (List.length l)
    /\ (c = CallLog (Sprintf_d "Upgrading database to version " v)
        \/ c = CallUp v None
        \/ c = CallInsert v true (Comment m) None).
Proof.
  intros H. apply in_flat_map in H as [[v m] [Hp Hc]].
  exists v, m. split; [eapply indexed_In; eassumption|].
  cbn in Hc. intuition auto.
Qed.

Lemma bodies_upCalls (l : list (Migration W)) : forall R,
  bodies (flat_map upCalls (indexed R l))
  = map (fun v => CallUp v None) (versions R (R + Z.of_nat (List.length l))).
Proof.
  intros R. rewrite <- indexed_fst. revert R.
  induction l as [|m l IH]; intros R; [reflexivity|].
  cbn [indexed flat_map map fst]. unfold bodies in *.
  rewrite filter_app, IH. reflexivity.
Qed.

Lemma bodies_preamble (C : Z) (tr : list call) :
  bodies (preamble C ++ tr) = bodies tr.
Proof. reflexivity. Qed.

Lemma inserts_preamble (C : Z) (tr : list call) :
  inserts (preamble C ++ tr) = inserts tr.
Proof. reflexivity. Qed.

End Calls.

(** ** Upgrades of a database without a record, records a second apart *)

Section UpgradeFromZero.

Context {A : Type}.
Variable t : TableAdapter A.

(** X20.  On a database without a record (current version 0) and with a
    driver that answers, when no body fails and every record comes a second
    at least after the one before, [UpToVersion] with a target [T >= 0]
    succeeds; its calls are the preamble and then, for the versions 1 to
    [min(T, len(M))] in ascending order, the call to the upgrade of the
    migration and the call that records it; the current version read back
    is [min(T, len(M))]; the world it leaves is the one these calls leave,
    one after the other. *)
Theorem UpToVersion_from_zero
    (migrations : list (Migration (World A))) (targetVersion : Z)
    (w w' : World A) (res : option error) (tr : list call) :
  Framed t migrations ->
  healthy (store w) -> pristine (store w) -> paced (store w) ->
  0 <= targetVersion ->
  UpToVersion t targetVersion migrations w = (res, w', tr) ->
  (forall v e, ~ In (CallUp v (Some e)) tr) ->
  let k := Z.min targetVersion (Z.of_nat (List.length migrations)) in
  res = None
  /\ tr = preamble 0
          ++ flat_map upCalls (indexed 0 (firstn (Z.to_nat k) migrations))
  /\ bodies tr = map (fun v => CallUp v None) (versions 0 k)
  /\ QuerySchemaVersion t w' = ((k, None), w')
  /\ w' = fold_left (afterUpStep t) (indexed 0 (firstn (Z.to_nat k) migrations))
            (Log t (Sprintf_d "Current database version is " 0)
               (snd (PrepareSchemaVersions t w))).
Proof.
  intros HF [He Hq] Hpr Hpc HT Hrun Hnofail k.
  destruct (Prepare_ok t w He) as (w1 & Hp & Hex1 & Hrows1 & Hclock1 & He1 & Hq1 & _).
  destruct (Prepare_same t _ _ _ Hp) as (_ & _ & _ & Hpc1 & _).
  assert (pristine (store w1)) as Hpr1 by (unfold pristine; congruence).
  pose proof (Query_ok t w1 ltac:(congruence) Hex1) as Hquery.
  rewrite (recorded_pristine _ Hpr1) in Hquery.
  rewrite (UpToVersion_steps t targetVersion 0 migrations w w1 w1 Hp Hquery) in Hrun.
  rewrite pending_slice in Hrun.
  replace (Z.max 0 0) with 0 in Hrun by lia.
  replace (Z.to_nat (0 - 0)) with O in Hrun by lia.
  replace (targetVersion - 0) with targetVersion in Hrun by lia.
  cbn [skipn] in Hrun. rewrite firstn_clamp in Hrun. fold k in Hrun.
  set (w2 := Log t _ w1) in Hrun.
  pose proof (frame_log _ _ HF) as Hlog.
  assert (store w2 = store w1) as Hs2 by (apply Log_store; exact Hlog).
  destruct (steps _ _ w2) as [[res0 w3] tr0] eqn:E.
  inversion Hrun; subst res w' tr; clear Hrun.
  pose proof E as Ew.
  apply steps_up_table in E.
  2:{ exact Hlog. }
  2:{ intros m w0 Hm. apply (frame_up _ _ HF). eapply firstn_incl, Hm. }
  2:{ rewrite Hs2. now apply rows_wf_pristine. }
  2:{ rewrite Hs2. auto. }
  2:{ now rewrite Hs2. }
  2:{ lia. }
  2:{ rewrite Hs2. now apply recorded_pristine. }
  destruct E as (n & tail & Hn & -> & Hwf3 & Hex3 & Hrec3 & He3 & Hq3 & Hrows3 & Hcases).
  assert (List.length (firstn (Z.to_nat k) migrations) = Z.to_nat k) as Hlen.
  { rewrite length_firstn. unfold k. lia. }
  destruct Hcases as [(-> & -> & ->)|[(e & _ & ->)|(m & e & _ & _ & _ & Hwhy)]].
  - rewrite firstn_all, app_nil_r. splits.
    + reflexivity.
    + reflexivity.
    + change (bodies (flat_map upCalls (indexed 0 (firstn (Z.to_nat k) migrations)))
              = map (fun v => CallUp v None) (versions 0 k)).
      rewrite bodies_upCalls, Hlen. f_equal. f_equal. unfold k. lia.
    + rewrite (Query_ok t w3) by congruence.
      rewrite Hrec3, Hlen. do 2 f_equal. unfold k. lia.
    + rewrite Hp. cbn [snd]. eapply steps_up_world, Ew.
  - exfalso. eapply Hnofail. do 3 right. apply in_or_app. right.
    right. left. reflexivity.
  - exfalso. destruct Hwhy as [Hw|(r & Hr & Hv)]; [congruence|].
    apply Hrows3 in Hr as [Hr|Hr]; [|lia].
    rewrite Hs2, Hpr1 in Hr. elim Hr.
Qed.

End UpgradeFromZero.

(** ** The sequencer on any adapter *)

Section AnyAdapter.

Context {W T : Type} {AdapterT : Adapter W T}.
Variable adapter : T.

(** How [UpToVersion] starts: the store cannot be prepared, or cannot be
    read, or the loop is reached. *)
Lemma UpToVersion_cases (targetVersion : Z) (migrations : list (Migration W))
    (w w' : W) (res : option error) (tr : list call) :
  UpToVersion adapter targetVersion migrations w = (res, w', tr) ->
  (exists e, res = Some (Errorf_s "error preparing schema versions: " e)
             /\ tr = [CallPrepare (Some e)])
  \/ (exists v e, res = Some (Errorf_s "error querying current schema version: " e)
                  /\ tr = [CallPrepare None; CallQuery (v, Some e)])
  \/ (exists w1 currentVersion w2,
        PrepareSchemaVersions adapter w = (None, w1)
        /\ QuerySchemaVersion adapter w1 = ((currentVersion, None), w2)).
Proof.
  unfold UpToVersion, bind, callPrepare, callQuery, invoke, ret.
  destruct (PrepareSchemaVersions adapter w) as [[e|] w1] eqn:Hp.
  - intros H; inversion H. left. exists e. split; reflexivity.
  - destruct (QuerySchemaVersion adapter w1) as [[v [e|]] w2] eqn:Hq.
    + intros H; inversion H. right; left. exists v, e. split; reflexivity.
    + intros _. right; right. exists w1, v, w2. split; [reflexivity|exact Hq].
Qed.

(** C5.  [Up] is [UpToVersion] with the length of the list as target: on
    every adapter, list and world the two give the same result, the same
    world and the same calls. *)
Theorem Up_is_UpToVersion_len (migrations : list (Migration W)) (w : W) :
  migrate_Up adapter migrations w
  = UpToVersion adapter (Z.of_nat (List.length migrations)) migrations w.
Proof. reflexivity. Qed.

(** A target equal to the current version: nothing is pending, in either
    direction. *)
Lemma UpToVersion_at_target (currentVersion : Z) (migrations : list (Migration W))
    (w w1 w2 : W) :
  PrepareSchemaVersions adapter w = (None, w1) ->
  QuerySchemaVersion adapter w1 = ((currentVersion, None), w2) ->
  UpToVersion adapter currentVersion migrations w
  = (None,
     Log adapter (Sprintf_d "Current database version is " currentVersion) w2,
     preamble currentVersion).
Proof.
  intros Hp Hq. rewrite (UpToVersion_steps _ _ _ _ _ _ _ Hp Hq).
  rewrite pending_empty by lia. reflexivity.
Qed.

Lemma DownToVersion_no_pending
    (targetVersion currentVersion : Z) (migrations : list (Migration W))
    (w w1 w2 : W) :
  PrepareSchemaVersions adapter w = (None, w1) ->
  QuerySchemaVersion adapter w1 = ((currentVersion, None), w2) ->
  currentVersion <= targetVersion ->
  DownToVersion adapter targetVersion migrations w
  = (None,
     Log adapter (Sprintf_d "Current database version is " currentVersion) w2,
     preamble currentVersion).
Proof.
  intros Hp Hq Hle. rewrite (DownToVersion_steps _ _ _ _ _ _ _ Hp Hq).
  rewrite pending_empty by lia. reflexivity.
Qed.

(** C10.  With a target at or above the current version [DownToVersion]
    succeeds with the three calls of the preamble only: it calls no body
    and records nothing, and the world it leaves is the one these three
    calls leave. *)
Theorem DownToVersion_target_not_below
    (targetVersion currentVersion : Z) (migrations : list (Migration W))
    (w w1 w2 : W) :
  PrepareSchemaVersions adapter w = (None, w1) ->
  QuerySchemaVersion adapter w1 = ((currentVersion, None), w2) ->
  currentVersion <= targetVersion ->
  DownToVersion adapter targetVersion migrations w
  = (None,
     Log adapter (Sprintf_d "Current database version is " currentVersion) w2,
     preamble currentVersion)
  /\ bodies (preamble currentVersion) = []
  /\ inserts (preamble currentVersion) = [].
Proof.
  intros Hp Hq Hle. splits; try reflexivity.
  now apply DownToVersion_no_pending with (w1 := w1).
Qed.

(** *** [ExecQueries] *)

Variable ExecContext : string -> W -> option error * W.



End AnyAdapter.

(** ** Failure and repetition of an upgrade, records a second apart *)

Section UpgradeRuns.

Context {A : Type}.
Variable t : TableAdapter A.

(** An [UpToVersion] that reaches its loop, on a store as the adapter
    expects it: the version [C] it read is the one the store holds, and
    the loop is a run of the steps of the versions above [C]. *)
Lemma UpToVersion_table_run
    (migrations : list (Migration (World A))) (targetVersion : Z)
    (w w' : World A) (res : option error) (tr : list call) :
  Framed t migrations -> wf (store w) -> paced (store w) ->
  UpToVersion t targetVersion migrations w = (res, w', tr) ->
  (exists e, res = Some e /\ bodies tr = [] /\ inserts tr = [])
  \/ (exists C tr0,
        C = recorded (store w) /\ 0 <= C
        /\ ExecErr (store w) = None /\ QueryErr (store w) = None
        /\ tr = preamble C ++ tr0
        /\ up_run C
             (skipn (Z.to_nat C) (firstn (Z.to_nat targetVersion) migrations))
             (store w) res (store w') tr0).
Proof.
  intros HF [Hwf Hqs] Hpc Hrun.
  destruct (UpToVersion_cases _ _ _ _ _ _ _ Hrun)
    as [(e & -> & ->)|[(v & e & -> & ->)|(w1 & C & w2 & Hp & Hquery)]].
  - left. eauto.
  - left. eauto.
  - right.
    pose proof (Prepare_inv _ _ _ _ Hp) as He. cbn in He.
    destruct (Prepare_ok t w He) as (w1' & Hp' & Hex1 & Hrows1 & Hclock1 & He1 & Hq1 & _).
    rewrite Hp in Hp'. inversion Hp'; subst w1'; clear Hp'.
    destruct (Prepare_same t _ _ _ Hp) as (_ & _ & Hrec1 & Hpc1 & _).
    assert (rows_wf (store w1)) as Hwf1 by (eapply rows_wf_rows; eassumption).
    assert (QueryErr (store w1) <> Some ErrNoRows) as Hqs1 by (rewrite Hq1; exact Hqs).
    destruct (Query_inv _ _ _ _ Hqs1 Hquery) as (-> & Hq1' & _ & HC).
    pose proof (recorded_nonneg _ Hwf) as Hnn.
    rewrite (UpToVersion_steps t targetVersion C migrations w w1 w1 Hp Hquery) in Hrun.
    rewrite pending_slice in Hrun.
    replace (Z.max C 0) with C in Hrun by lia.
    replace (C - 0) with C in Hrun by lia.
    replace (targetVersion - 0) with targetVersion in Hrun by lia.
    set (w2 := Log t _ w1) in Hrun.
    pose proof (frame_log _ _ HF) as Hlog.
    assert (store w2 = store w1) as Hs2 by (apply Log_store; exact Hlog).
    destruct (steps _ _ w2) as [[res0 w3] tr0] eqn:E.
    inversion Hrun; subst res w' tr; clear Hrun.
    apply steps_up_table in E.
    2:{ exact Hlog. }
    2:{ intros m w0 Hm. apply (frame_up _ _ HF). eapply firstn_incl, skipn_incl, Hm. }
    2:{ now rewrite Hs2. }
    2:{ rewrite Hs2. auto. }
    2:{ now rewrite Hs2. }
    2:{ lia. }
    2:{ rewrite Hs2. congruence. }
    exists C, tr0. splits; try congruence; try lia; try reflexivity.
    destruct E as (n & tail & Hn & -> & Hwf3 & Hex3 & Hrec3 & He3 & Hq3 & Hrows3 & Hcases).
    exists n, tail. rewrite Hs2 in *.
    splits; auto; try congruence.
    intros r Hr. apply Hrows3 in Hr as [Hr|Hr]; [left; congruence | now right].
Qed.

(** X17.  When the body of the upgrade to version [V] fails with [e] in a
    run of [UpToVersion] in which every record comes a second at least
    after the one before, the run returns the error that carries [V] and
    the text of [e]; the failed call is the last call of the run, so no
    record is written for [V] and no later body runs; the version read
    back afterwards is [V - 1]. *)
Theorem UpToVersion_body_failure
    (migrations : list (Migration (World A))) (targetVersion : Z)
    (w w' : World A) (res : option error) (tr : list call) (V : Z) (e : error) :
  Framed t migrations -> wf (store w) -> paced (store w) ->
  UpToVersion t targetVersion migrations w = (res, w', tr) ->
  In (CallUp V (Some e)) tr ->
  res = Some (errorString ("error upgrading database to version " +++ itoa V
                           +++ ": " +++ Error e))
  /\ (exists tr0, tr = tr0 ++ [CallUp V (Some e)])
  /\ (forall u c r, ~ In (CallInsert V u c r) tr)
  /\ (forall v r, In (CallUp v r) tr -> v <= V)
  /\ recorded (store w') = V - 1
  /\ QuerySchemaVersion t w' = ((V - 1, None), w').
Proof.
  intros HF Hwf Hpc Hrun Hin.
  destruct (UpToVersion_table_run _ _ _ _ _ _ HF Hwf Hpc Hrun)
    as [(e0 & _ & Hb & _)|(C & tr0 & HC & Hnn & He & Hq & -> & Hup)].
  { exfalso. assert (In (CallUp V (Some e)) (bodies tr)) as Hf
      by (apply filter_In; auto).
    rewrite Hb in Hf. elim Hf. }
  destruct Hup as (n & tail & Hn & -> & Hwf3 & Hex3 & Hrec3 & He3 & Hq3 & Hrows3 & Hcases).
  set (l := skipn (Z.to_nat C) (firstn (Z.to_nat targetVersion) migrations)) in *.
  assert (forall c, In c (preamble C ++ flat_map upCalls (indexed C (firstn n l))) ->
          (forall v r, c = CallUp v r -> r = None /\ v <= C + Z.of_nat n)
          /\ (forall v u s r, c = CallInsert v u s r -> v <= C + Z.of_nat n)) as Hpre.
  { intros c Hc. apply in_app_or in Hc as [Hc|Hc].
    - cbn in Hc. destruct Hc as [<-|[<-|[<-|[]]]]; split; intros; discriminate.
    - apply upCalls_In in Hc as (v0 & m0 & Hv0 & Hc).
      rewrite length_firstn in Hv0.
      destruct Hc as [-> | [-> | ->]]; split; intros ? ? **;
        try discriminate; match goal with H : _ = _ |- _ => inversion H; subst end;
        try split; auto; lia. }
  rewrite app_assoc in Hin. apply in_app_or in Hin as [Hin|Hin].
  { apply Hpre in Hin as [Hin _]. destruct (Hin V (Some e) eq_refl). discriminate. }
  destruct Hcases as [(Hr & Hl & ->)|[(e1 & -> & ->)|(m & e1 & Hm & Hr & -> & Hw)]].
  - elim Hin.
  - destruct Hin as [Hin|[Hin|[]]]; [discriminate|].
    inversion Hin; subst e1 V; clear Hin.
    splits.
    + reflexivity.
    + exists (preamble C ++ flat_map upCalls (indexed C (firstn n l))
              ++ [CallLog (Sprintf_d "Upgrading database to version "
                             (C + Z.of_nat n + 1))]).
      rewrite <- !app_assoc. reflexivity.
    + intros u c r Hc. rewrite app_assoc in Hc. apply in_app_or in Hc as [Hc|Hc].
      * apply Hpre in Hc as [_ Hc]. specialize (Hc _ u c r eq_refl). lia.
      * destruct Hc as [Hc|[Hc|[]]]; discriminate.
    + intros v r Hc. rewrite app_assoc in Hc. apply in_app_or in Hc as [Hc|Hc].
      * apply Hpre in Hc as [Hc _]. destruct (Hc v r eq_refl). lia.
      * destruct Hc as [Hc|[Hc|[]]]; [discriminate|]. inversion Hc; subst. lia.
    + lia.
    + rewrite (Query_ok t w') by congruence.
      do 2 f_equal. lia.
  - destruct Hin as [Hin|[Hin|[Hin|[]]]]; discriminate.
Qed.

(** X18.  After an [UpToVersion] that succeeded and whose records came a
    second at least one after the other, every version up to the target is
    at or below the version the store gives for the current one, and the
    same call again makes the three calls of the preamble and no other: it
    calls no body, it records nothing, it leaves the store as it is, and
    the version read back is the same before and after. *)
Theorem UpToVersion_twice
    (migrations : list (Migration (World A))) (targetVersion : Z)
    (w w1 : World A) (tr1 : list call) :
  Framed t migrations -> wf (store w) -> paced (store w) ->
  UpToVersion t targetVersion migrations w = (None, w1, tr1) ->
  Z.min targetVersion (Z.of_nat (List.length migrations)) <= recorded (store w1)
  /\ exists w2 tr2,
    UpToVersion t targetVersion migrations w1 = (None, w2, tr2)
    /\ tr2 = preamble (recorded (store w1))
    /\ bodies tr2 = [] /\ inserts tr2 = []
    /\ store w2 = store w1
    /\ QuerySchemaVersion t w1 = ((recorded (store w1), None), w1)
    /\ QuerySchemaVersion t w2 = ((recorded (store w1), None), w2).
Proof.
  intros HF Hwf Hpc Hrun.
  destruct (UpToVersion_table_run _ _ _ _ _ _ HF Hwf Hpc Hrun)
    as [(e0 & He0 & _)|(C & tr0 & HC & Hnn & He & Hq & -> & Hup)]; [discriminate|].
  destruct Hup as (n & tail & Hn & -> & Hwf3 & Hex3 & Hrec3 & He3 & Hq3 & Hrows3 & Hcases).
  destruct Hcases as [(_ & Hlen & ->)|[(e1 & He1 & _)|(m & e1 & _ & He1 & _)]];
    try discriminate.
  destruct (Prepare_ok t w1 ltac:(congruence))
    as (wB & Hp2 & HexB & HrowsB & HclockB & HeB & HqB & Hsame).
  specialize (Hsame Hex3).
  pose proof (Query_ok t wB ltac:(congruence) HexB) as Hq2.
  rewrite Hsame in Hq2.
  pose proof (frame_log _ _ HF) as Hlog.
  split.
  { rewrite Hrec3, Hlen, length_skipn, length_firstn. lia. }
  exists (Log t (Sprintf_d "Current database version is " (recorded (store w1))) wB),
         (preamble (recorded (store w1))).
  splits; try reflexivity.
  - rewrite (UpToVersion_steps t targetVersion _ migrations w1 wB wB Hp2 Hq2).
    rewrite pending_slice, skipn_all2; [reflexivity|].
    rewrite Hrec3, Hlen, length_skipn, !Z.sub_0_r. lia.
  - rewrite Log_store by exact Hlog. exact Hsame.
  - apply Query_ok; congruence.
  - rewrite (Query_ok t (Log t _ wB)).
    + rewrite Log_store by exact Hlog. now rewrite Hsame.
    + rewrite Log_store by exact Hlog. congruence.
    + rewrite Log_store by exact Hlog. exact HexB.
Qed.

End UpgradeRuns.

(** ** The current version of the table adapter *)

Section CurrentVersion.

Context {A : Type}.
Variable t : TableAdapter A.

(** X19.  [QuerySchemaVersion] on the table adapter:
    - with rows in the table, it returns without an error the version of
      a row of the table whose [created_at] is the greatest; when one row
      only carries the greatest time, it is the version of that row;
    - with an empty table it returns [0] without an error;
    - when [Scan] fails with another error than [sql.ErrNoRows] (a fault
      of the driver, a missing table), it returns that error;
    - right after a record of version [v] has been inserted, a second at
      least after the last one, it returns [v]. *)
Theorem QuerySchemaVersion_most_recent (w : World A) :
  (forall rows,
      QueryErr (store w) = None ->
      schema_versions (store w) = Some rows -> rows <> [] ->
      exists r,
        QuerySchemaVersion t w = ((version r, None), w)
        /\ In r rows
        /\ (forall r', In r' rows -> created_at r' <= created_at r)
        /\ (forall r0, newest rows = [r0] -> r = r0))
  /\ (QueryErr (store w) = None ->
      schema_versions (store w) = Some [] ->
      QuerySchemaVersion t w = ((0, None), w))
  /\ (forall e,
      snd (scanLatestVersion (store w)) = Some e -> e <> ErrNoRows ->
      QuerySchemaVersion t w = ((0, Some e), w))
  /\ (forall v u c w1,
      rows_wf (store w) -> QueryErr (store w) = None ->
      (1 <= elapse (store w) (List.length (rows_of (store w))))%nat ->
      InsertSchemaVersion t v u c w = (None, w1) ->
      QuerySchemaVersion t w1 = ((v, None), w1)).
Proof.
  splits.
  - intros rows Hq Hrows Hne.
    destruct rows as [|x rows]; [congruence|].
    destruct (latest_some (tie (store w)) x rows) as [r Hr].
    assert (forall r0, newest (x :: rows) = [r0] -> r = r0) as Hone.
    { intros r0 H0. unfold latest in Hr. rewrite H0 in Hr.
      cbn [List.length] in Hr. rewrite Nat.mod_1_r in Hr. now inversion Hr. }
    destruct (latest_max _ _ _ Hr) as [Hin Hmax].
    exists r. splits; auto.
    cbn. unfold TableAdapter_QuerySchemaVersion, scanLatestVersion.
    rewrite Hq, Hrows, Hr. reflexivity.
  - intros Hq Hrows. cbn.
    unfold TableAdapter_QuerySchemaVersion, scanLatestVersion.
    rewrite Hq, Hrows, latest_empty. reflexivity.
  - intros e He Hne. cbn. unfold TableAdapter_QuerySchemaVersion.
    destruct (scanLatestVersion (store w)) as [v err]. cbn in He. subst err.
    destruct e; [now elim Hne | reflexivity].
  - intros v u c w1 Hwf Hq Hgap Hins. cbn in Hins.
    unfold TableAdapter_InsertSchemaVersion in Hins.
    destruct (execInsert v u c (store w)) as [err st'] eqn:E.
    inversion Hins; subst err w1; clear Hins.
    pose proof (execInsert_newer _ _ _ _ _ Hwf Hgap E) as Hrec.
    destruct (execInsert_ok _ _ _ _ _ E) as (Hex & _ & _ & _ & Hq' & _).
    rewrite Query_ok; cbn; [now rewrite Hrec | congruence | exact Hex].
Qed.

(** Inserts only add rows at the end: no row is changed or removed. *)
Lemma InsertSchemaVersion_appends (v : Z) (u : bool) (c : string)
    (w w1 : World A) (err : option error) :
  InsertSchemaVersion t v u c w = (err, w1) ->
  exists new, rows_of (store w1) = rows_of (store w) ++ new.
Proof.
  cbn. unfold TableAdapter_InsertSchemaVersion.
  destruct (execInsert v u c (store w)) as [[e|] st'] eqn:E;
    intros H; inversion H; subst; cbn.
  - apply execInsert_err in E as [-> _]. exists []. now rewrite app_nil_r.
  - apply execInsert_ok in E as (_ & -> & _). eauto.
Qed.

(** The table holds one row per version at most: once a record of a
    version is in, a second one is refused, whatever its direction. *)
Lemma InsertSchemaVersion_once (v : Z) (u u' : bool) (c c' : string)
    (w w1 : World A) :
  InsertSchemaVersion t v u c w = (None, w1) ->
  exists e w2, InsertSchemaVersion t v u' c' w1 = (Some e, w2)
    /\ store w2 = store w1.
Proof.
  cbn. unfold TableAdapter_InsertSchemaVersion.
  destruct (execInsert v u c (store w)) as [[e|] st'] eqn:E;
    intros H; inversion H; subst; clear H. cbn.
  apply execInsert_ok in E as (Hex & Hrows & _ & He' & _ & He & _).
  unfold execInsert. rewrite He', He.
  unfold table_exists in Hex. unfold rows_of in Hrows at 1.
  destruct (schema_versions st') as [rows'|]; [|now elim Hex].
  assert (existsb (fun r => version r =? v) rows' = true) as ->.
  { apply existsb_exists. eexists. split.
    - rewrite Hrows. apply in_or_app. right. left. reflexivity.
    - cbn. apply Z.eqb_refl. }
  eexists _, _. split; reflexivity.
Qed.

End CurrentVersion.

(** ** Targets and edges *)

(** C8.  A target equal to the current version: [UpToVersion] and
    [DownToVersion] succeed with the calls of the preamble only, so no body
    runs and nothing is recorded.  An empty list of migrations on a database
    without a record: [Up] and [DownToVersion] to [0] succeed, the store is
    what the creation of the table leaves, and the version read is [0]. *)
Theorem edge_policy {W T : Type} {AdapterT : Adapter W T} (adapter : T)
    (currentVersion : Z) (migrations : list (Migration W)) (w w1 w2 : W)
    {A : Type} (t : TableAdapter A) (w0 : World A) :
  PrepareSchemaVersions adapter w = (None, w1) ->
  QuerySchemaVersion adapter w1 = ((currentVersion, None), w2) ->
  log_framed t -> healthy (store w0) -> pristine (store w0) ->
  (UpToVersion adapter currentVersion migrations w
     = (None,
        Log adapter (Sprintf_d "Current database version is " currentVersion) w2,
        preamble currentVersion)
   /\ DownToVersion adapter currentVersion migrations w
     = (None,
        Log adapter (Sprintf_d "Current database version is " currentVersion) w2,
        preamble currentVersion)
   /\ bodies (preamble currentVersion) = []
   /\ inserts (preamble currentVersion) = [])
  /\ (exists wu,
        migrate_Up t [] w0 = (None, wu, preamble 0)
        /\ execCreateTable (store w0) = (None, store wu)
        /\ rows_of (store wu) = []
        /\ QuerySchemaVersion t wu = ((0, None), wu))
  /\ (exists wd,
        DownToVersion t 0 [] w0 = (None, wd, preamble 0)
        /\ execCreateTable (store w0) = (None, store wd)
        /\ rows_of (store wd) = []
        /\ QuerySchemaVersion t wd = ((0, None), wd)).
Proof.
  intros Hp Hq Hlog [He Hqe] Hpr.
  split.
  { splits; try reflexivity.
    - now apply UpToVersion_at_target with (w1 := w1).
    - apply DownToVersion_no_pending with (w1 := w1); [assumption..|lia]. }
  destruct (Prepare_ok t w0 He) as (wA & HpA & HexA & HrowsA & _ & HeA & HqA & _).
  assert (pristine (store wA)) as HprA by (unfold pristine; congruence).
  pose proof (Query_ok t wA ltac:(congruence) HexA) as HqueryA.
  rewrite (recorded_pristine _ HprA) in HqueryA.
  assert (execCreateTable (store w0) = (None, store wA)) as Hcreate.
  { cbn in HpA. unfold TableAdapter_PrepareSchemaVersions in HpA.
    destruct (execCreateTable (store w0)) as [err st]. inversion HpA; subst. reflexivity. }
  set (wL := Log t (Sprintf_d "Current database version is " 0) wA).
  assert (store wL = store wA) as HsL by (apply Log_store; exact Hlog).
  assert (QuerySchemaVersion t wL = ((0, None), wL)) as HqueryL.
  { rewrite Query_ok; rewrite ?HsL; [|congruence|assumption].
    now rewrite (recorded_pristine _ HprA). }
  split; exists wL; splits; try congruence.
  - apply (UpToVersion_at_target t 0 [] w0 wA wA HpA HqueryA).
  - apply (DownToVersion_no_pending t 0 0 [] w0 wA wA HpA HqueryA). lia.
Qed.

(** ** What a downgrade records *)

Section Downgrade.

Context {W T : Type} {AdapterT : Adapter W T}.
Variable adapter : T.

Lemma downStep_ok (v : Z) (m : Migration W) (w w' : W) (tr : list call) :
  downStep adapter v m w = (None, w', tr) -> tr = downCalls (v, m).
Proof.
  unfold downStep, bind, callLog, callInsert, invoke, ret.
  destruct (Down m _) as [[e|] w1]; [intros H; inversion H|].
  destruct (InsertSchemaVersion adapter v false (Comment m) w1) as [[e|] w2];
    intros H; inversion H. reflexivity.
Qed.

Lemma steps_down_last (l : list (Z * Migration W)) (v : Z) (m : Migration W) :
  forall (w w' : W) (tr : list call),
    steps (downStep adapter) (l ++ [(v, m)]) w = (None, w', tr) ->
    exists tr0, tr = tr0 ++ [CallInsert v false (Comment m) None].
Proof.
  induction l as [|[v0 m0] l IH]; intros w w' tr H.
  - cbn [Datatypes.app steps] in H. unfold bind in H.
    destruct (downStep adapter v m w) as [[[e|] w1] t1] eqn:E; inversion H; subst.
    apply downStep_ok in E. subst t1.
    exists [CallLog (Sprintf_d "Downgrading database to version " v); CallDown v None].
    reflexivity.
  - rewrite <- app_comm_cons in H. cbn [steps] in H. unfold bind in H.
    destruct (downStep adapter v0 m0 w) as [[[e|] w1] t1] eqn:E; [inversion H|].
    destruct (steps _ _ w1) as [[res2 w2] t2] eqn:E2.
    inversion H; subst. apply IH in E2 as [tr0 ->].
    exists (t1 ++ tr0). now rewrite app_assoc.
Qed.

(** On every adapter, the last thing a [DownToVersion] that succeeds in
    going from a current version [C] down to a target [T] does is to
    record the version [T + 1], with the direction [false]: the most
    recent record then holds [T + 1], not [T]. *)
Lemma DownToVersion_last_record
    (targetVersion currentVersion : Z) (migrations : list (Migration W))
    (w w1 w2 w' : W) (tr : list call) :
  PrepareSchemaVersions adapter w = (None, w1) ->
  QuerySchemaVersion adapter w1 = ((currentVersion, None), w2) ->
  0 <= targetVersion < currentVersion ->
  targetVersion < Z.of_nat (List.length migrations) ->
  DownToVersion adapter targetVersion migrations w = (None, w', tr) ->
  exists tr0 m,
    nth_error migrations (Z.to_nat targetVersion) = Some m
    /\ tr = tr0 ++ [CallInsert (targetVersion + 1) false (Comment m) None].
Proof.
  intros Hp Hq HT Hlen Hrun.
  rewrite (DownToVersion_steps _ _ _ _ _ _ _ Hp Hq) in Hrun.
  rewrite pending_slice in Hrun.
  replace (Z.max targetVersion 0) with targetVersion in Hrun by lia.
  rewrite !Z.sub_0_r in Hrun.
  destruct (nth_error migrations (Z.to_nat targetVersion)) as [m|] eqn:Hm.
  2:{ apply nth_error_None in Hm. lia. }
  pose proof (hd_error_skipn (Z.to_nat targetVersion)
                (firstn (Z.to_nat currentVersion) migrations)) as Hhd.
  rewrite nth_error_firstn in Hhd.
  destruct (Nat.ltb_spec (Z.to_nat targetVersion) (Z.to_nat currentVersion)); [|lia].
  rewrite Hm in Hhd.
  destruct (skipn _ (firstn _ migrations)) as [|m' rest]; [discriminate|].
  inversion Hhd; subst m'.
  cbn [indexed rev] in Hrun.
  destruct (steps _ _ _) as [[res0 w3] tr0] eqn:E.
  inversion Hrun; subst res0 w' tr; clear Hrun.
  apply steps_down_last in E as [tr1 ->].
  exists (preamble currentVersion ++ tr1), m. split; reflexivity.
Qed.

Lemma steps_down_ok (l : list (Z * Migration W)) :
  forall (w w' : W) (tr : list call),
    steps (downStep adapter) l w = (None, w', tr) -> tr = flat_map downCalls l.
Proof.
  induction l as [|[v m] l IH]; intros w w' tr H.
  - inversion H. reflexivity.
  - cbn [steps] in H. unfold bind in H.
    destruct (downStep adapter v m w) as [[[e|] w1] t1] eqn:E; [inversion H|].
    destruct (steps _ l w1) as [[res2 w2] t2] eqn:E2.
    inversion H; subst. apply downStep_ok in E. apply IH in E2.
    subst. reflexivity.
Qed.

Lemma bodies_downCalls (l : list (Z * Migration W)) :
  bodies (flat_map downCalls l) = map (fun v => CallDown v None) (map fst l).
Proof.
  induction l as [|[v m] l IH]; [reflexivity|].
  cbn [flat_map map fst]. unfold bodies in *. rewrite filter_app, IH. reflexivity.
Qed.

(** On every adapter, a [DownToVersion] that succeeds calls the downgrades
    of the versions from [min(C, len)] down to [T + 1], in descending
    order, where [C] is the version it read and [T >= 0] its target. *)
Lemma DownToVersion_descending
    (targetVersion currentVersion : Z) (migrations : list (Migration W))
    (w w1 w2 w' : W) (tr : list call) :
  PrepareSchemaVersions adapter w = (None, w1) ->
  QuerySchemaVersion adapter w1 = ((currentVersion, None), w2) ->
  0 <= targetVersion ->
  DownToVersion adapter targetVersion migrations w = (None, w', tr) ->
  bodies tr
  = map (fun v => CallDown v None)
      (rev (versions targetVersion
              (Z.min currentVersion (Z.of_nat (List.length migrations))))).
Proof.
  intros Hp Hq HT Hrun.
  rewrite (DownToVersion_steps _ _ _ _ _ _ _ Hp Hq) in Hrun.
  rewrite pending_slice in Hrun.
  replace (Z.max targetVersion 0) with targetVersion in Hrun by lia.
  rewrite !Z.sub_0_r in Hrun.
  destruct (steps _ _ _) as [[res0 w3] tr0] eqn:E.
  inversion Hrun; subst res0 w' tr; clear Hrun.
  apply steps_down_ok in E. subst tr0.
  match goal with
  | |- bodies (_ :: _ :: _ :: ?x) = ?rhs => change (bodies x = rhs)
  end.
  rewrite bodies_downCalls, map_rev, indexed_fst.
  rewrite length_skipn, length_firstn.
  unfold versions. do 4 f_equal. lia.
Qed.

End Downgrade.

(** ** The scenario on the table adapter, slow and quick *)

Lemma Framed_incl {A : Type} (t : TableAdapter A) (ms ms' : list (Migration (World A))) :
  (forall m, In m ms' -> In m ms) -> Framed t ms -> Framed t ms'.
Proof.
  intros Hin [Hl Hu Hd]. constructor; auto.
Qed.

Lemma testFramed : Framed testAdapter testMigrations.
Proof.
  constructor.
  - intros f msg w H. inversion H; subst. reflexivity.
  - intros m w [<-|[<-|[<-|[]]]]; cbn; try reflexivity.
    destruct (nth 1 (up (app w)) false); reflexivity.
  - intros m w [<-|[<-|[<-|[]]]]; reflexivity.
Qed.

(** [TestExecQueries] and [TestExecQueriesError], on the test driver. *)
Example TestExecQueries :
  ExecQueries mockExecContext ["example query 1"; "example query 2"] freshWorld
  = (None,
     {| store := freshStore;
        app := {| up := [false; false; false];
                  down := [false; false; false];
                  logs := ["example query 1"; "example query 2"] |} |}).
Proof. reflexivity. Qed.

Example TestExecQueriesError :
  ExecQueries mockExecContext ["example query 1"; "example query 2"] brokenWorld
  = (Some (errorString "error with query 0: mock error"), brokenWorld).
Proof. reflexivity. Qed.

(** The two upgrades of [TestDown]: the error of the first one, the
    records each one asks for, the flags of the closures. *)
Example TestDown_first_Up :
  let r := migrate_Up testAdapter testMigrations freshWorld in
  fst (fst r) = Some (errorString "error upgrading database to version 2: mock error")
  /\ inserts (snd r) = [CallInsert 1 true "example comment 1" None]
  /\ up (app (world_after r)) = [true; true; false]
  /\ down (app (world_after r)) = [false; false; false].
Proof. vm_compute. repeat split. Qed.

Example TestDown_second_Up :
  let r := migrate_Up testAdapter testMigrations worldAfterUp1 in
  fst (fst r) = None
  /\ inserts (snd r) = [CallInsert 2 true "example comment 2" None;
                        CallInsert 3 true "example comment 3" None]
  /\ up (app (world_after r)) = [true; true; true]
  /\ down (app (world_after r)) = [false; false; false]
  /\ recorded (store (world_after r)) = 3.
Proof. vm_compute. repeat split. Qed.

(** C2, on the code.  The three migrations of the test are applied (the
    store reads version 3); then [DownToVersion] with target 1 runs the
    downgrade of version 3 and asks for a record of version 3, as the code
    is written.  The table holds a row of version 3 already, and version is
    its primary key: the record is refused, the function returns an error,
    the downgrade of version 2 does not run, and the version read back is
    3, not 1. *)
Theorem DownToVersion_after_Up :
  QuerySchemaVersion testAdapter worldAfterUp2 = ((3, None), worldAfterUp2)
  /\ DownToVersion testAdapter 1 testMigrations worldAfterUp2
     = (Some (Errorf_d_s "error inserting schema_versions row for version " 3
                errDuplicateKey),
        worldAfterDown,
        preamble 3
        ++ [CallLog "Downgrading database to version 3";
            CallDown 3 None;
            CallInsert 3 false "example comment 3" (Some errDuplicateKey)])
  /\ QuerySchemaVersion testAdapter worldAfterDown = ((3, None), worldAfterDown).
Proof. repeat split; vm_compute; reflexivity. Qed.

(** C9, on the code.  After the upgrade to version 3 has been recorded,
    the record of a downgrade through version 3 is refused, and the table
    is left as it was: it holds one row per version, not one per
    transition. *)
Theorem schema_versions_one_row_per_version :
  In 3 (map version (rows_of (store worldAfterUp2)))
  /\ InsertSchemaVersion testAdapter 3 false "example comment 3" worldAfterUp2
     = (Some errDuplicateKey, worldAfterUp2).
Proof. split; vm_compute; [auto | reflexivity]. Qed.

(** C1, on the code.  [UpToVersion] with target 5 on two migrations, on a
    database just opened, the whole run within one second.  Both upgrades
    run, in order, and both records are written, as claimed.  The two rows
    carry the same [created_at], the query [ORDER BY created_at DESC LIMIT
    1] has two rows to choose from, and the engine returns the one inserted
    first: the version read back is 1, not 2. *)
Theorem UpToVersion_within_one_second :
  let r := UpToVersion sqliteAdapter 5 [migration1; migration3] quickWorld in
  fst (fst r) = None
  /\ snd r = preamble 0 ++ upCalls (1, migration1) ++ upCalls (2, migration3)
  /\ up (app (world_after r)) = [true; false; true]
  /\ rows_of (store (world_after r))
     = [ {| version := 1; created_at := 0; upgrade := true;
            comment := "example comment 1" |};
         {| version := 2; created_at := 0; upgrade := true;
            comment := "example comment 3" |} ]
  /\ QuerySchemaVersion sqliteAdapter (world_after r) = ((1, None), world_after r).
Proof. vm_compute. repeat split. Qed.

(** C3, on the code.  Three migrations on a database just opened, the
    whole run within one second; the upgrade to version 3 fails.  The error
    names version 3 and the cause, no record is written for version 3 and
    the records of versions 1 and 2 are in the table, as claimed.  The two
    rows carry the same [created_at] and the engine returns the one
    inserted first: the version read back is 1, not 2. *)
Theorem UpToVersion_body_failure_within_one_second :
  let r := UpToVersion sqliteAdapter 3 [migration1; migration3; migration2]
             quickWorld in
  fst (fst r)
  = Some (errorString "error upgrading database to version 3: mock error")
  /\ inserts (snd r) = [CallInsert 1 true "example comment 1" None;
                        CallInsert 2 true "example comment 3" None]
  /\ rows_of (store (world_after r))
     = [ {| version := 1; created_at := 0; upgrade := true;
            comment := "example comment 1" |};
         {| version := 2; created_at := 0; upgrade := true;
            comment := "example comment 3" |} ]
  /\ QuerySchemaVersion sqliteAdapter (world_after r) = ((1, None), world_after r).
Proof. vm_compute. repeat split. Qed.

(** C4, on the code.  [UpToVersion] with target 2 on two migrations, twice
    in a row, on a database just opened, all within one second.  The first
    run succeeds and writes the records of versions 1 and 2.  The second
    run reads version 1, calls the upgrade to version 2 again and asks for
    its record, which the primary key refuses: it returns an error. *)
Theorem UpToVersion_twice_within_one_second :
  let r1 := UpToVersion sqliteAdapter 2 [migration1; migration3] quickWorld in
  let r2 := UpToVersion sqliteAdapter 2 [migration1; migration3] (world_after r1) in
  fst (fst r1) = None
  /\ inserts (snd r1) = [CallInsert 1 true "example comment 1" None;
                         CallInsert 2 true "example comment 3" None]
  /\ fst (fst r2)
     = Some (errorString
               "error inserting schema version for version 2: duplicate key: schema_versions.version")
  /\ snd r2 = preamble 1
              ++ [CallLog "Upgrading database to version 2";
                  CallUp 2 None;
                  CallInsert 2 true "example comment 3" (Some errDuplicateKey)]
  /\ bodies (snd r2) = [CallUp 2 None].
Proof. vm_compute. repeat split. Qed.

(** C7, on the code.  The records of the versions 1, 2 and 3 are inserted
    in this order within one second.  The most recently recorded one is of
    version 3; the three rows carry the same [created_at], and
    [QuerySchemaVersion] returns the version of the row the engine gives
    first: 1. *)
Theorem QuerySchemaVersion_within_one_second :
  rows_of (store quickInserted)
  = [ {| version := 1; created_at := 0; upgrade := true;
         comment := "example comment 1" |};
      {| version := 2; created_at := 0; upgrade := true;
         comment := "example comment 2" |};
      {| version := 3; created_at := 0; upgrade := true;
         comment := "example comment 3" |} ]
  /\ QuerySchemaVersion sqliteAdapter quickInserted = ((1, None), quickInserted).
Proof. vm_compute. repeat split. Qed.

(** ** The theorems at the inputs of the scenario *)

Lemma everySecond_paced (st : Store) : elapse st = everySecond -> paced st.
Proof. intros H n _. rewrite H. unfold everySecond. lia. Qed.

Lemma freshWorld_wf : wf (store freshWorld).
Proof. split; [intros r [] | discriminate]. Qed.

Lemma worldAfterUp1_wf : wf (store worldAfterUp1).
Proof.
  split; [|discriminate]. intros r [<-|[]]. cbn. lia.
Qed.

(** [UpToVersion] with target 5 on the first and third migrations of the
    test, from a database just opened, a second between the records: both
    run, the closures have set their flags, the version read is 2. *)
Lemma UpToVersion_from_zero_witness :
  fst (fst (UpToVersion testAdapter 5 [migration1; migration3] freshWorld)) = None
  /\ bodies (snd (UpToVersion testAdapter 5 [migration1; migration3] freshWorld))
     = [CallUp 1 None; CallUp 2 None]
  /\ QuerySchemaVersion testAdapter
       (world_after (UpToVersion testAdapter 5 [migration1; migration3] freshWorld))
     = ((2, None),
        world_after (UpToVersion testAdapter 5 [migration1; migration3] freshWorld))
  /\ up (app (world_after
                (UpToVersion testAdapter 5 [migration1; migration3] freshWorld)))
     = [true; false; true].
Proof.
  pose (r := UpToVersion testAdapter 5 [migration1; migration3] freshWorld).
  destruct (UpToVersion_from_zero testAdapter [migration1; migration3] 5 freshWorld
              (world_after r) (fst (fst r)) (snd r)) as (H1 & H2 & H3 & H4 & H5).
  - apply Framed_incl with (ms := testMigrations); [|exact testFramed].
    intros m [<-|[<-|[]]]; cbn; auto.
  - split; reflexivity.
  - reflexivity.
  - now apply everySecond_paced.
  - lia.
  - vm_compute. reflexivity.
  - intros v e H. vm_compute in H.
    repeat (destruct H as [H|H]; [discriminate H|]). exact H.
  - split; [exact H1 | split; [exact H3 | split; [exact H4|]]].
    change (up (app (world_after r)) = [true; false; true]).
    rewrite H5. reflexivity.
Defined.

(** The first [Up] of the test: the second migration fails, the error
    names version 2 and the cause, the version read is 1. *)
Lemma UpToVersion_body_failure_witness :
  fst (fst (UpToVersion testAdapter 3 testMigrations freshWorld))
  = Some (errorString "error upgrading database to version 2: mock error")
  /\ recorded (store worldAfterUp1) = 1
  /\ QuerySchemaVersion testAdapter worldAfterUp1 = ((1, None), worldAfterUp1).
Proof.
  pose (r := UpToVersion testAdapter 3 testMigrations freshWorld).
  destruct (UpToVersion_body_failure testAdapter testMigrations 3 freshWorld
              (world_after r) (fst (fst r)) (snd r) 2 (errorString "mock error"))
    as (H1 & _ & _ & _ & H5 & H6).
  - exact testFramed.
  - exact freshWorld_wf.
  - now apply everySecond_paced.
  - vm_compute. reflexivity.
  - vm_compute. auto 10.
  - split; [exact H1 | split; [exact H5 | exact H6]].
Defined.

(** The second [Up] of the test succeeds; a third one calls nothing but
    the preamble and leaves the store as it is. *)
Lemma UpToVersion_twice_witness :
  exists w2,
    UpToVersion testAdapter 3 testMigrations worldAfterUp2 = (None, w2, preamble 3)
    /\ store w2 = store worldAfterUp2.
Proof.
  destruct (UpToVersion_twice testAdapter testMigrations 3 worldAfterUp1 worldAfterUp2
              (snd (UpToVersion testAdapter 3 testMigrations worldAfterUp1)))
    as (_ & w2 & tr2 & H1 & H2 & _ & _ & H5 & _).
  - exact testFramed.
  - exact worldAfterUp1_wf.
  - now apply everySecond_paced.
  - vm_compute. reflexivity.
  - exists w2. split; [|exact H5]. rewrite H1, H2. reflexivity.
Defined.


(** Target 3 at version 3, and the empty list on a database just opened. *)
Lemma edge_policy_witness :
  UpToVersion testAdapter 3 testMigrations worldAfterUp2
  = (None, Log testAdapter "Current database version is 3" worldAfterUp2, preamble 3)
  /\ DownToVersion testAdapter 3 testMigrations worldAfterUp2
     = (None, Log testAdapter "Current database version is 3" worldAfterUp2, preamble 3)
  /\ (exists wu, migrate_Up testAdapter [] freshWorld = (None, wu, preamble 0)
                 /\ rows_of (store wu) = [])
  /\ (exists wd, DownToVersion testAdapter 0 [] freshWorld = (None, wd, preamble 0)
                 /\ rows_of (store wd) = []).
Proof.
  destruct (edge_policy testAdapter 3 testMigrations worldAfterUp2 worldAfterUp2
              worldAfterUp2 testAdapter freshWorld)
    as ((H1 & H2 & _) & (wu & H3 & _ & H4 & _) & (wd & H5 & _ & H6 & _)).
  - reflexivity.
  - reflexivity.
  - exact (frame_log _ _ testFramed).
  - split; reflexivity.
  - reflexivity.
  - split; [exact H1 | split; [exact H2 | split]].
    + exists wu. split; assumption.
    + exists wd. split; assumption.
Defined.

(** Target 5 at version 3. *)
Lemma DownToVersion_target_not_below_witness :
  DownToVersion testAdapter 5 testMigrations worldAfterUp2
  = (None, Log testAdapter "Current database version is 3" worldAfterUp2, preamble 3).
Proof.
  destruct (DownToVersion_target_not_below testAdapter 5 3 testMigrations
              worldAfterUp2 worldAfterUp2 worldAfterUp2) as (H & _).
  - reflexivity.
  - reflexivity.
  - lia.
  - exact H.
Defined.

(** * Further properties of the package *)

(** ** More facts on lists of versions *)

Lemma indexed_nth {X : Type} (l : list X) : forall i v x,
  In (v, x) (indexed i l) ->
  i < v /\ nth_error l (Z.to_nat (v - i - 1)) = Some x.
Proof.
  induction l as [|y l IH]; intros i v x H; [elim H|].
  destruct H as [H|H].
  - inversion H; subst. split; [lia|].
    replace (Z.to_nat (i + 1 - i - 1)) with O by lia. reflexivity.
  - apply IH in H as [Hlt Hn]. split; [lia|].
    replace (Z.to_nat (v - i - 1)) with (S (Z.to_nat (v - (i + 1) - 1))) by lia.
    exact Hn.
Qed.

(** The versions of [indexed] go up: around an element, the ones before
    are below it and the ones after are above it. *)
Lemma indexed_split {X : Type} (l : list X) : forall i a p b,
  indexed i l = a ++ p :: b ->
  (forall q, In q a -> fst q < fst p) /\ (forall q, In q b -> fst p < fst q).
Proof.
  induction l as [|y l IH]; intros i a p b H.
  - destruct a; discriminate.
  - cbn [indexed] in H. destruct a as [|q0 a].
    + inversion H; subst. split; [intros q []|].
      intros [v x] Hq. apply indexed_In in Hq. cbn. lia.
    + rewrite <- app_comm_cons in H. inversion H; subst.
      destruct (IH _ _ _ _ H2) as [Ha Hb]. split; [|exact Hb].
      intros q [<-|Hq]; [|auto].
      assert (In p (indexed (i + 1) l)) as Hp
        by (rewrite H2; apply in_or_app; right; now left).
      destruct p as [v x]. apply indexed_In in Hp. cbn. lia.
Qed.

Lemma pending_In {X : Type} (lo hi : Z) (l : list X) (v : Z) (x : X) :
  In (v, x) (filter (pending lo hi) (indexed 0 l)) ->
  lo < v <= hi /\ 1 <= v <= Z.of_nat (List.length l)
  /\ nth_error l (Z.to_nat (v - 1)) = Some x.
Proof.
  intros H. apply filter_In in H as [Hin Hp].
  unfold pending in Hp. cbn [fst] in Hp. apply andb_prop in Hp as [H1 H2].
  apply Z.ltb_lt in H1. apply Z.leb_le in H2.
  pose proof (indexed_In _ _ _ _ Hin) as Hr.
  apply indexed_nth in Hin as [_ Hn].
  replace (v - 0 - 1) with (v - 1) in Hn by lia.
  repeat split; try lia. exact Hn.
Qed.

(** ** The shape of steps and of runs of steps, on any adapter *)

Section Shapes.

Context {W T : Type} {AdapterT : Adapter W T}.
Variable adapter : T.

Lemma upStep_shape (v : Z) (m : Migration W) (w w' : W)
    (res : option error) (tr : list call) :
  upStep adapter v m w = (res, w', tr) ->
  (res = None /\ tr = upCalls (v, m))
  \/ (exists e,
        res = Some (Errorf_d_s "error upgrading database to version " v e)
        /\ tr = [CallLog (Sprintf_d "Upgrading database to version " v);
                 CallUp v (Some e)])
  \/ (exists e,
        res = Some (Errorf_d_s "error inserting schema version for version " v e)
        /\ tr = [CallLog (Sprintf_d "Upgrading database to version " v);
                 CallUp v None;
                 CallInsert v true (Comment m) (Some e)]).
Proof.
  unfold upStep, bind, callLog, callInsert, invoke, ret.
  destruct (Up m _) as [[e|] w1].
  - intros H; inversion H. right; left. exists e. split; reflexivity.
  - destruct (InsertSchemaVersion adapter v true (Comment m) w1) as [[e|] w2];
      intros H; inversion H.
    + right; right. exists e. split; reflexivity.
    + left. split; reflexivity.
Qed.

Lemma downStep_shape (v : Z) (m : Migration W) (w w' : W)
    (res : option error) (tr : list call) :
  downStep adapter v m w = (res, w', tr) ->
  (res = None /\ tr = downCalls (v, m))
  \/ (exists e,
        res = Some (Errorf_d_s "error upgrading database to version " v e)
        /\ tr = [CallLog (Sprintf_d "Downgrading database to version " v);
                 CallDown v (Some e)])
  \/ (exists e,
        res = Some (Errorf_d_s "error inserting schema_versions row for version " v e)
        /\ tr = [CallLog (Sprintf_d "Downgrading database to version " v);
                 CallDown v None;
                 CallInsert v false (Comment m) (Some e)]).
Proof.
  unfold downStep, bind, callLog, callInsert, invoke, ret.
  destruct (Down m _) as [[e|] w1].
  - intros H; inversion H. right; left. exists e. split; reflexivity.
  - destruct (InsertSchemaVersion adapter v false (Comment m) w1) as [[e|] w2];
      intros H; inversion H.
    + right; right. exists e. split; reflexivity.
    + left. split; reflexivity.
Qed.

(** A run of steps: all of them succeed, or the steps before the first
    failing one do. *)
Lemma steps_split (step : Z -> Migration W -> M W (option error))
    (ok : Z * Migration W -> list call) :
  (forall v m w w' tr, step v m w = (None, w', tr) -> tr = ok (v, m)) ->
  forall (l : list (Z * Migration W)) (w w' : W) (res : option error) (tr : list call),
    steps step l w = (res, w', tr) ->
    (res = None /\ tr = flat_map ok l)
    \/ (exists done v m rest w0 e tail,
          l = done ++ (v, m) :: rest
          /\ step v m w0 = (Some e, w', tail)
          /\ res = Some e
          /\ tr = flat_map ok done ++ tail).
Proof.
  intros Hok. induction l as [|[v m] l IH]; intros w w' res tr H.
  - inversion H. left. split; reflexivity.
  - cbn [steps] in H. unfold bind in H.
    destruct (step v m w) as [[[e|] w1] t1] eqn:E.
    + inversion H; subst. right.
      exists [], v, m, l, w, e, t1. rewrite app_nil_r. auto.
    + destruct (steps step l w1) as [[res2 w2] t2] eqn:E2.
      inversion H; subst res w' tr; clear H.
      apply Hok in E. subst t1.
      apply IH in E2 as [(-> & ->)|(done & v0 & m0 & rest & w0 & e & tail & -> & Hs & -> & ->)].
      * left. split; reflexivity.
      * right. exists ((v, m) :: done), v0, m0, rest, w0, e, tail.
        cbn [flat_map]. rewrite <- app_assoc. auto.
Qed.

Lemma upStep_ok (v : Z) (m : Migration W) (w w' : W) (tr : list call) :
  upStep adapter v m w = (None, w', tr) -> tr = upCalls (v, m).
Proof.
  intros H. apply upStep_shape in H as [(_ & H)|[(e & H & _)|(e & H & _)]];
    [exact H | discriminate | discriminate].
Qed.

End Shapes.

(** ** Targets out of range, on any adapter *)

Section Targets.

Context {W T : Type} {AdapterT : Adapter W T}.
Variable adapter : T.

(** X4.  [UpToVersion] never goes down: with a target at or below the
    current version, or a current version at or beyond the length of the
    list, it succeeds with the three calls of the preamble only. *)
Theorem UpToVersion_target_not_above
    (targetVersion currentVersion : Z) (migrations : list (Migration W))
    (w w1 w2 : W) :
  PrepareSchemaVersions adapter w = (None, w1) ->
  QuerySchemaVersion adapter w1 = ((currentVersion, None), w2) ->
  targetVersion <= currentVersion
  \/ Z.of_nat (List.length migrations) <= currentVersion ->
  UpToVersion adapter targetVersion migrations w
  = (None,
     Log adapter (Sprintf_d "Current database version is " currentVersion) w2,
     preamble currentVersion)
  /\ bodies (preamble currentVersion) = []
  /\ inserts (preamble currentVersion) = [].
Proof.
  intros Hp Hq Hle. splits; try reflexivity.
  rewrite (UpToVersion_steps _ _ _ _ _ _ _ Hp Hq).
  rewrite pending_empty by lia. reflexivity.
Qed.

Lemma upLoop_clamp (targetVersion currentVersion : Z) (migrations : list (Migration W)) (w : W) :
  Z.of_nat (List.length migrations) <= targetVersion ->
  upLoop adapter targetVersion currentVersion 0 migrations w
  = upLoop adapter (Z.of_nat (List.length migrations)) currentVersion 0 migrations w.
Proof.
  intros H. rewrite !upLoop_steps, !pending_slice, !Z.sub_0_r.
  rewrite (firstn_all2 (n := Z.to_nat targetVersion)) by lia.
  rewrite Nat2Z.id, firstn_all. reflexivity.
Qed.

Lemma downLoop_clamp (targetVersion currentVersion : Z) (migrations : list (Migration W)) (w : W) :
  targetVersion <= 0 ->
  downLoop adapter targetVersion currentVersion migrations (List.length migrations) w
  = downLoop adapter 0 currentVersion migrations (List.length migrations) w.
Proof.
  intros H. rewrite !downLoop_steps, !pending_slice by lia.
  replace (Z.max targetVersion 0) with (Z.max 0 0) by lia.
  replace (Z.to_nat (targetVersion - 0)) with (Z.to_nat (0 - 0)) by lia.
  reflexivity.
Qed.

(** X5.  Targets are clamped to the list.  [UpToVersion] with a target at
    or beyond the length of the list is [Up]; [DownToVersion] with a target
    at or below [0] is [DownToVersion] with target [0]: the same result,
    the same world, the same calls. *)
Theorem targets_clamp (up_target down_target : Z)
    (migrations : list (Migration W)) (w : W) :
  Z.of_nat (List.length migrations) <= up_target ->
  down_target <= 0 ->
  UpToVersion adapter up_target migrations w = migrate_Up adapter migrations w
  /\ DownToVersion adapter down_target migrations w
     = DownToVersion adapter 0 migrations w.
Proof.
  intros Hu Hd. split.
  - unfold migrate_Up, UpToVersion, bind.
    destruct (callPrepare adapter w) as [[[e|] w1] t1]; [reflexivity|].
    destruct (callQuery adapter w1) as [[[C [e|]] w2] t2]; [reflexivity|].
    cbn [callLog]. now rewrite upLoop_clamp.
  - unfold DownToVersion, bind.
    destruct (callPrepare adapter w) as [[[e|] w1] t1]; [reflexivity|].
    destruct (callQuery adapter w1) as [[[C [e|]] w2] t2]; [reflexivity|].
    cbn [callLog]. now rewrite downLoop_clamp.
Qed.

End Targets.

(** ** [ExecQueries] on two lists *)

Section QueriesApp.

Context {W : Type}.
Variable ExecContext : string -> W -> option error * W.

Lemma execLoop_app (q1 q2 : list string) : forall (i : Z) (w : W),
  execLoop ExecContext i (q1 ++ q2) w
  = let '(err, w1, t1) := execLoop ExecContext i q1 w in
    match err with
    | Some e => (Some e, w1, t1)
    | None =>
        let '(err2, w2, t2) :=
          execLoop ExecContext (i + Z.of_nat (List.length q1)) q2 w1 in
        (err2, w2, t1 ++ t2)
    end.
Proof.
  induction q1 as [|q q1 IH]; intros i w.
  - cbn. rewrite Z.add_0_r. destruct (execLoop _ _ _ _) as [[e w1] t1]. reflexivity.
  - rewrite <- app_comm_cons. cbn [execLoop]. unfold bind, invoke.
    destruct (ExecContext q w) as [[e|] w1]; [reflexivity|].
    rewrite IH. destruct (execLoop ExecContext (i + 1) q1 w1) as [[[e|] w2] t2];
      [reflexivity|].
    replace (i + 1 + Z.of_nat (List.length q1))
      with (i + Z.of_nat (List.length (q :: q1))) by (cbn [List.length]; lia).
    destruct (execLoop _ _ q2 w2) as [[e3 w3] t3]. reflexivity.
Qed.

(** The index the loop starts from shows in the text of the error only. *)
Lemma execLoop_index (queries : list string) : forall (i j : Z) (w : W),
  snd (fst (execLoop ExecContext i queries w))
  = snd (fst (execLoop ExecContext j queries w))
  /\ snd (execLoop ExecContext i queries w) = snd (execLoop ExecContext j queries w)
  /\ (fst (fst (execLoop ExecContext i queries w)) = None
      <-> fst (fst (execLoop ExecContext j queries w)) = None).
Proof.
  induction queries as [|q queries IH]; intros i j w.
  - cbn. tauto.
  - cbn [execLoop]. unfold bind, invoke.
    destruct (ExecContext q w) as [[e|] w1]; cbn.
    + splits; auto. split; discriminate.
    + specialize (IH (i + 1) (j + 1) w1).
      destruct (execLoop ExecContext (i + 1) queries w1) as [[r1 wa] ta].
      destruct (execLoop ExecContext (j + 1) queries w1) as [[r2 wb] tb].
      cbn in *. destruct IH as (-> & -> & H). auto.
Qed.

(** X12.  The function [ExecQueries] gives for two lists put end to end
    runs the first list as [ExecQueries] of it does and stops there when
    that fails; otherwise it goes on with the second list, whose statements
    count from the length of the first in the error message.  So it leaves
    the world that [ExecQueries] of the first list followed by
    [ExecQueries] of the second leaves, and succeeds when both do. *)
Theorem ExecQueries_app (q1 q2 : list string) (w : W) :
  ExecQueries ExecContext (q1 ++ q2) w
  = match ExecQueries ExecContext q1 w with
    | (Some e, w1) => (Some e, w1)
    | (None, w1) =>
        let '(err2, w2, _) :=
          execLoop ExecContext (Z.of_nat (List.length q1)) q2 w1 in
        (err2, w2)
    end
  /\ (forall w1, ExecQueries ExecContext q1 w = (None, w1) ->
        snd (ExecQueries ExecContext (q1 ++ q2) w)
        = snd (ExecQueries ExecContext q2 w1)
        /\ (fst (ExecQueries ExecContext (q1 ++ q2) w) = None
            <-> fst (ExecQueries ExecContext q2 w1) = None)).
Proof.
  assert (ExecQueries ExecContext (q1 ++ q2) w
          = match ExecQueries ExecContext q1 w with
            | (Some e, w1) => (Some e, w1)
            | (None, w1) =>
                let '(err2, w2, _) :=
                  execLoop ExecContext (Z.of_nat (List.length q1)) q2 w1 in
                (err2, w2)
            end) as Heq.
  { unfold ExecQueries. rewrite execLoop_app.
    destruct (execLoop ExecContext 0 q1 w) as [[[e|] w1] t1]; [reflexivity|].
    cbn [Z.add]. destruct (execLoop _ _ q2 w1) as [[e2 w2] t2]. reflexivity. }
  split; [exact Heq|].
  intros w1 H1. rewrite Heq, H1. unfold ExecQueries.
  destruct (execLoop_index q2 (Z.of_nat (List.length q1)) 0 w1) as (Hw & _ & Hr).
  destruct (execLoop ExecContext (Z.of_nat (List.length q1)) q2 w1) as [[ra wa] ta].
  destruct (execLoop ExecContext 0 q2 w1) as [[rb wb] tb].
  cbn in *. auto.
Qed.

End QueriesApp.

(** ** The calls of [UpToVersion] and [DownToVersion], on any adapter *)

Section CallsOfRuns.

Context {W T : Type} {AdapterT : Adapter W T}.
Variable adapter : T.

Lemma steps_up_calls (l : list (Z * Migration W)) :
  forall (w w' : W) (res : option error) (tr : list call) (c : call),
    steps (upStep adapter) l w = (res, w', tr) -> In c tr ->
    exists v m, In (v, m) l
      /\ (c = CallLog (Sprintf_d "Upgrading database to version " v)
          \/ (exists r, c = CallUp v r)
          \/ (exists r, c = CallInsert v true (Comment m) r
                        /\ In (CallUp v None) tr)).
Proof.
  induction l as [|[v m] l IH]; intros w w' res tr c H Hc.
  - inversion H; subst. elim Hc.
  - cbn [steps] in H. unfold bind in H.
    destruct (upStep adapter v m w) as [[e w1] t1] eqn:E.
    assert (In c t1 ->
            exists v0 m0, In (v0, m0) ((v, m) :: l)
              /\ (c = CallLog (Sprintf_d "Upgrading database to version " v0)
                  \/ (exists r, c = CallUp v0 r)
                  \/ (exists r, c = CallInsert v0 true (Comment m0) r
                                /\ In (CallUp v0 None) t1))) as Hhead.
    { intros Hin. exists v, m. split; [now left|].
      apply upStep_shape in E as [(_ & ->)|[(e0 & _ & ->)|(e0 & _ & ->)]];
        cbn in Hin |- *; intuition (subst; eauto). }
    destruct e as [e|].
    + inversion H; subst res w' tr. rewrite app_nil_r in *. auto.
    + destruct (steps _ l w1) as [[res2 w2] t2] eqn:E2.
      inversion H; subst res w' tr; clear H.
      apply in_app_or in Hc as [Hc|Hc].
      * destruct (Hhead Hc) as (v0 & m0 & Hin & Hsh).
        exists v0, m0. split; [assumption|].
        destruct Hsh as [Hsh|[Hsh|(r & Hr & Hu)]]; auto.
        right; right. exists r. split; [assumption|]. apply in_or_app. now left.
      * destruct (IH _ _ _ _ _ E2 Hc) as (v0 & m0 & Hin & Hsh).
        exists v0, m0. split; [now right|].
        destruct Hsh as [Hsh|[Hsh|(r & Hr & Hu)]]; auto.
        right; right. exists r. split; [assumption|]. apply in_or_app. now right.
Qed.

Lemma steps_down_calls (l : list (Z * Migration W)) :
  forall (w w' : W) (res : option error) (tr : list call) (c : call),
    steps (downStep adapter) l w = (res, w', tr) -> In c tr ->
    exists v m, In (v, m) l
      /\ (c = CallLog (Sprintf_d "Downgrading database to version " v)
          \/ (exists r, c = CallDown v r)
          \/ (exists r, c = CallInsert v false (Comment m) r
                        /\ In (CallDown v None) tr)).
Proof.
  induction l as [|[v m] l IH]; intros w w' res tr c H Hc.
  - inversion H; subst. elim Hc.
  - cbn [steps] in H. unfold bind in H.
    destruct (downStep adapter v m w) as [[e w1] t1] eqn:E.
    assert (In c t1 ->
            exists v0 m0, In (v0, m0) ((v, m) :: l)
              /\ (c = CallLog (Sprintf_d "Downgrading database to version " v0)
                  \/ (exists r, c = CallDown v0 r)
                  \/ (exists r, c = CallInsert v0 false (Comment m0) r
                                /\ In (CallDown v0 None) t1))) as Hhead.
    { intros Hin. exists v, m. split; [now left|].
      apply downStep_shape in E as [(_ & ->)|[(e0 & _ & ->)|(e0 & _ & ->)]];
        cbn in Hin |- *; intuition (subst; eauto). }
    destruct e as [e|].
    + inversion H; subst res w' tr. rewrite app_nil_r in *. auto.
    + destruct (steps _ l w1) as [[res2 w2] t2] eqn:E2.
      inversion H; subst res w' tr; clear H.
      apply in_app_or in Hc as [Hc|Hc].
      * destruct (Hhead Hc) as (v0 & m0 & Hin & Hsh).
        exists v0, m0. split; [assumption|].
        destruct Hsh as [Hsh|[Hsh|(r & Hr & Hu)]]; auto.
        right; right. exists r. split; [assumption|]. apply in_or_app. now left.
      * destruct (IH _ _ _ _ _ E2 Hc) as (v0 & m0 & Hin & Hsh).
        exists v0, m0. split; [now right|].
        destruct Hsh as [Hsh|[Hsh|(r & Hr & Hu)]]; auto.
        right; right. exists r. split; [assumption|]. apply in_or_app. now right.
Qed.

(** How [DownToVersion] starts. *)
Lemma DownToVersion_cases (targetVersion : Z) (migrations : list (Migration W))
    (w w' : W) (res : option error) (tr : list call) :
  DownToVersion adapter targetVersion migrations w = (res, w', tr) ->
  (exists e, res = Some (Errorf_s "error preparing schema versions: " e)
             /\ tr = [CallPrepare (Some e)])
  \/ (exists v e, res = Some (Errorf_s "error querying current schema version: " e)
                  /\ tr = [CallPrepare None; CallQuery (v, Some e)])
  \/ (exists w1 currentVersion w2,
        PrepareSchemaVersions adapter w = (None, w1)
        /\ QuerySchemaVersion adapter w1 = ((currentVersion, None), w2)).
Proof.
  unfold DownToVersion, bind, callPrepare, callQuery, invoke, ret.
  destruct (PrepareSchemaVersions adapter w) as [[e|] w1] eqn:Hp.
  - intros H; inversion H. left. exists e. split; reflexivity.
  - destruct (QuerySchemaVersion adapter w1) as [[v [e|]] w2] eqn:Hq.
    + intros H; inversion H. right; left. exists v, e. split; reflexivity.
    + intros _. right; right. exists w1, v, w2. split; [reflexivity|exact Hq].
Qed.

(** X8.  What [UpToVersion] calls, in every run, failed or not.  A body it
    calls is the upgrade of a migration of the list, of a version above the
    version read and not above the target.  A record it asks for carries
    the direction [true] and the comment of the migration of its version,
    and comes after the upgrade to that version has succeeded.  It calls no
    downgrade. *)
Theorem UpToVersion_calls
    (targetVersion : Z) (migrations : list (Migration W))
    (w w' : W) (res : option error) (tr : list call) :
  UpToVersion adapter targetVersion migrations w = (res, w', tr) ->
  (forall v r, In (CallUp v r) tr ->
     exists C m, In (CallQuery (C, None)) tr
       /\ C < v <= targetVersion /\ 1 <= v
       /\ nth_error migrations (Z.to_nat (v - 1)) = Some m)
  /\ (forall v u s r, In (CallInsert v u s r) tr ->
        u = true /\ In (CallUp v None) tr
        /\ exists m, nth_error migrations (Z.to_nat (v - 1)) = Some m
                     /\ s = Comment m)
  /\ (forall v r, ~ In (CallDown v r) tr).
Proof.
  intros Hrun.
  destruct (UpToVersion_cases _ _ _ _ _ _ _ Hrun)
    as [(e & _ & ->)|[(v0 & e & _ & ->)|(w1 & C & w2 & Hp & Hq)]].
  - splits; intros; intro || idtac; cbn in *; intuition discriminate.
  - splits; intros; intro || idtac; cbn in *; intuition discriminate.
  - rewrite (UpToVersion_steps _ _ _ _ _ _ _ Hp Hq) in Hrun.
    destruct (steps _ _ _) as [[res0 w3] tr0] eqn:E.
    inversion Hrun; subst res w' tr; clear Hrun.
    assert (forall c, In c (preamble C ++ tr0) ->
            In c (preamble C) \/ In c tr0) as Hsplit
      by (intros; now apply in_app_or).
    splits.
    + intros v r Hin. apply Hsplit in Hin as [Hin|Hin].
      { cbn in Hin. intuition discriminate. }
      destruct (steps_up_calls _ _ _ _ _ _ E Hin) as (v0 & m0 & Hl & Hsh).
      apply pending_In in Hl as (Hb & Hr & Hn).
      destruct Hsh as [Hsh|[(r0 & Hsh)|(r0 & Hsh & _)]]; try discriminate.
      inversion Hsh; subst. exists C, m0. splits; try lia; auto.
      right. left. reflexivity.
    + intros v u s r Hin. apply Hsplit in Hin as [Hin|Hin].
      { cbn in Hin. intuition discriminate. }
      destruct (steps_up_calls _ _ _ _ _ _ E Hin) as (v0 & m0 & Hl & Hsh).
      apply pending_In in Hl as (Hb & Hr & Hn).
      destruct Hsh as [Hsh|[(r0 & Hsh)|(r0 & Hsh & Hu)]]; try discriminate.
      inversion Hsh; subst. splits; auto.
      * cbn. auto 10.
      * exists m0. split; auto.
    + intros v r Hin. apply Hsplit in Hin as [Hin|Hin].
      { cbn in Hin. intuition discriminate. }
      destruct (steps_up_calls _ _ _ _ _ _ E Hin) as (v0 & m0 & Hl & Hsh).
      destruct Hsh as [Hsh|[(r0 & Hsh)|(r0 & Hsh & _)]]; discriminate.
Qed.

(** X9.  What [DownToVersion] calls, in every run, failed or not.  A body
    it calls is the downgrade of a migration of the list, of a version
    above the target and not above the version read.  A record it asks for
    carries the direction [false], the version it has just gone down from
    and the comment of that migration, and comes after that downgrade has
    succeeded.  It calls no upgrade. *)
Theorem DownToVersion_calls
    (targetVersion : Z) (migrations : list (Migration W))
    (w w' : W) (res : option error) (tr : list call) :
  DownToVersion adapter targetVersion migrations w = (res, w', tr) ->
  (forall v r, In (CallDown v r) tr ->
     exists C m, In (CallQuery (C, None)) tr
       /\ targetVersion < v <= C /\ 1 <= v
       /\ nth_error migrations (Z.to_nat (v - 1)) = Some m)
  /\ (forall v u s r, In (CallInsert v u s r) tr ->
        u = false /\ In (CallDown v None) tr
        /\ exists m, nth_error migrations (Z.to_nat (v - 1)) = Some m
                     /\ s = Comment m)
  /\ (forall v r, ~ In (CallUp v r) tr).
Proof.
  intros Hrun.
  destruct (DownToVersion_cases _ _ _ _ _ _ Hrun)
    as [(e & _ & ->)|[(v0 & e & _ & ->)|(w1 & C & w2 & Hp & Hq)]].
  - splits; intros; intro || idtac; cbn in *; intuition discriminate.
  - splits; intros; intro || idtac; cbn in *; intuition discriminate.
  - rewrite (DownToVersion_steps _ _ _ _ _ _ _ Hp Hq) in Hrun.
    destruct (steps _ _ _) as [[res0 w3] tr0] eqn:E.
    inversion Hrun; subst res w' tr; clear Hrun.
    assert (forall c, In c (preamble C ++ tr0) ->
            In c (preamble C) \/ In c tr0) as Hsplit
      by (intros; now apply in_app_or).
    splits.
    + intros v r Hin. apply Hsplit in Hin as [Hin|Hin].
      { cbn in Hin. intuition discriminate. }
      destruct (steps_down_calls _ _ _ _ _ _ E Hin) as (v0 & m0 & Hl & Hsh).
      apply in_rev in Hl. apply pending_In in Hl as (Hb & Hr & Hn).
      destruct Hsh as [Hsh|[(r0 & Hsh)|(r0 & Hsh & _)]]; try discriminate.
      inversion Hsh; subst. exists C, m0. splits; try lia; auto.
      right. left. reflexivity.
    + intros v u s r Hin. apply Hsplit in Hin as [Hin|Hin].
      { cbn in Hin. intuition discriminate. }
      destruct (steps_down_calls _ _ _ _ _ _ E Hin) as (v0 & m0 & Hl & Hsh).
      apply in_rev in Hl. apply pending_In in Hl as (Hb & Hr & Hn).
      destruct Hsh as [Hsh|[(r0 & Hsh)|(r0 & Hsh & Hu)]]; try discriminate.
      inversion Hsh; subst. splits; auto.
      * cbn. auto 10.
      * exists m0. split; auto.
    + intros v r Hin. apply Hsplit in Hin as [Hin|Hin].
      { cbn in Hin. intuition discriminate. }
      destruct (steps_down_calls _ _ _ _ _ _ E Hin) as (v0 & m0 & Hl & Hsh).
      destruct Hsh as [Hsh|[(r0 & Hsh)|(r0 & Hsh & _)]]; discriminate.
Qed.

End CallsOfRuns.

(** ** Runs of [DownToVersion], on any adapter *)

Section DowngradeRuns.

Context {W T : Type} {AdapterT : Adapter W T}.
Variable adapter : T.

(** X6.  A [DownToVersion] that succeeds, from the version [C] it read
    down to a target [T >= 0], makes after the preamble, for each version
    from [min(C, len)] down to [T + 1] in that order, the three calls of a
    step: the log message, the downgrade of the migration, and the record
    of that version with the direction [false] and the comment of the
    migration. *)
Theorem DownToVersion_success_calls
    (targetVersion currentVersion : Z) (migrations : list (Migration W))
    (w w1 w2 w' : W) (tr : list call) :
  PrepareSchemaVersions adapter w = (None, w1) ->
  QuerySchemaVersion adapter w1 = ((currentVersion, None), w2) ->
  0 <= targetVersion ->
  DownToVersion adapter targetVersion migrations w = (None, w', tr) ->
  tr = preamble currentVersion
       ++ flat_map downCalls
            (rev (indexed targetVersion
                    (skipn (Z.to_nat targetVersion)
                       (firstn (Z.to_nat currentVersion) migrations))))
  /\ bodies tr
     = map (fun v => CallDown v None)
         (rev (versions targetVersion
                 (Z.min currentVersion (Z.of_nat (List.length migrations))))).
Proof.
  intros Hp Hq HT Hrun. split.
  - rewrite (DownToVersion_steps _ _ _ _ _ _ _ Hp Hq) in Hrun.
    rewrite pending_slice in Hrun.
    replace (Z.max targetVersion 0) with targetVersion in Hrun by lia.
    rewrite !Z.sub_0_r in Hrun.
    destruct (steps _ _ _) as [[res0 w3] tr0] eqn:E.
    inversion Hrun; subst res0 w' tr; clear Hrun.
    apply steps_down_ok in E. subst tr0. reflexivity.
  - eapply DownToVersion_descending; eassumption.
Qed.

(** X7.  When the body of the downgrade from version [V] fails with [e]
    in a run of [DownToVersion], the run returns an error made of the text
    "error upgrading database to version", [V] and the text of [e]; the
    failed call is the last call of the run; no record is asked for [V];
    and no downgrade of a version below [V] is called. *)
Theorem DownToVersion_body_failure
    (targetVersion : Z) (migrations : list (Migration W))
    (w w' : W) (res : option error) (tr : list call) (V : Z) (e : error) :
  DownToVersion adapter targetVersion migrations w = (res, w', tr) ->
  In (CallDown V (Some e)) tr ->
  res = Some (errorString ("error upgrading database to version " +++ itoa V
                           +++ ": " +++ Error e))
  /\ (exists tr0, tr = tr0 ++ [CallDown V (Some e)])
  /\ (forall u s r, ~ In (CallInsert V u s r) tr)
  /\ (forall v r, In (CallDown v r) tr -> V <= v).
Proof.
  intros Hrun Hin.
  destruct (DownToVersion_cases _ _ _ _ _ _ _ Hrun)
    as [(e0 & _ & ->)|[(v0 & e0 & _ & ->)|(w1 & C & w2 & Hp & Hq)]].
  { cbn in Hin. intuition discriminate. }
  { cbn in Hin. intuition discriminate. }
  rewrite (DownToVersion_steps _ _ _ _ _ _ _ Hp Hq) in Hrun.
  rewrite pending_slice in Hrun.
  set (l := indexed _ _) in Hrun.
  destruct (steps _ _ _) as [[res0 w3] tr0] eqn:E.
  inversion Hrun; subst res w' tr; clear Hrun.
  change (In (CallDown V (Some e)) (preamble C ++ tr0)) in Hin.
  apply in_app_or in Hin as [Hin|Hin]; [cbn in Hin; intuition discriminate|].
  apply steps_split with (ok := downCalls) in E; [|apply downStep_ok].
  destruct E as [(-> & ->)|(done & v & m & rest & w0 & e1 & tail & Hl & Hs & -> & ->)].
  { exfalso. apply in_flat_map in Hin as ([v m] & _ & Hc).
    cbn in Hc. intuition discriminate. }
  assert (forall c, In c (flat_map downCalls done) ->
          (forall v' r, c = CallDown v' r -> r = None /\ v < v')
          /\ (forall v' u s r, c = CallInsert v' u s r -> v < v')) as Hdone.
  { intros c Hc. apply in_flat_map in Hc as ([v' m'] & Hd & Hc).
    assert (v < v') as Hlt.
    { assert (l = rev rest ++ (v, m) :: rev done) as Hl'.
      { rewrite <- (rev_involutive l), Hl, rev_app_distr. cbn [rev].
        rewrite <- app_assoc. reflexivity. }
      unfold l in Hl'. apply indexed_split in Hl' as [_ Hafter].
      apply (Hafter (v', m')). now apply -> in_rev. }
    cbn in Hc. destruct Hc as [<-|[<-|[<-|[]]]]; split; intros ? ? **;
      try discriminate; match goal with H : _ = _ |- _ => inversion H; subst end;
      auto. }
  apply downStep_shape in Hs as [(Hn & _)|[(e2 & -> & ->)|(e2 & -> & ->)]];
    [discriminate| |].
  - apply in_app_or in Hin as [Hin|Hin].
    { apply Hdone in Hin as [Hin _]. destruct (Hin V (Some e) eq_refl). discriminate. }
    destruct Hin as [Hin|[Hin|[]]]; [discriminate|].
    inversion Hin; subst v e2; clear Hin.
    splits.
    + reflexivity.
    + exists (preamble C ++ flat_map downCalls done
              ++ [CallLog (Sprintf_d "Downgrading database to version " V)]).
      cbn. rewrite <- !app_assoc. reflexivity.
    + intros u s r Hc. cbn [In] in Hc.
      destruct Hc as [Hc|[Hc|[Hc|Hc]]]; try discriminate Hc.
      apply in_app_or in Hc as [Hc|Hc].
      * apply Hdone in Hc as [_ Hc]. specialize (Hc V u s r eq_refl). lia.
      * destruct Hc as [Hc|[Hc|[]]]; discriminate.
    + intros v r Hc. cbn [In] in Hc.
      destruct Hc as [Hc|[Hc|[Hc|Hc]]]; try discriminate Hc.
      apply in_app_or in Hc as [Hc|Hc].
      * apply Hdone in Hc as [Hc _]. destruct (Hc v r eq_refl). lia.
      * destruct Hc as [Hc|[Hc|[]]]; [discriminate|]. inversion Hc; subst. lia.
  - exfalso. apply in_app_or in Hin as [Hin|Hin].
    { apply Hdone in Hin as [Hin _]. destruct (Hin V (Some e) eq_refl). discriminate. }
    destruct Hin as [Hin|[Hin|[Hin|[]]]]; discriminate.
Qed.

End DowngradeRuns.

(** ** What the statements of the adapter keep of the store *)

Lemma keeps_refl (st : Store) : keeps st st.
Proof.
  unfold keeps, grows. splits; auto; try lia.
  exists []. now rewrite app_nil_r.
Qed.

Lemma keeps_trans (st1 st2 st3 : Store) :
  keeps st1 st2 -> keeps st2 st3 -> keeps st1 st3.
Proof.
  intros (((n1 & H1) & He1 & Hq1 & Hc1 & Ht1) & Hw1 & Hd1 & Hp1)
         (((n2 & H2) & He2 & Hq2 & Hc2 & Ht2) & Hw2 & Hd2 & Hp2).
  unfold keeps, grows. splits; auto; try congruence; try lia.
  exists (n1 ++ n2). rewrite H2, H1. now rewrite app_assoc.
Qed.

Lemma execCreateTable_keeps (st st' : Store) (err : option error) :
  execCreateTable st = (err, st') -> keeps st st'.
Proof.
  destruct err as [e|]; intros H.
  - apply execCreateTable_err in H as [_ ->]. apply keeps_refl.
  - pose proof (execCreateTable_None _ _ H) as He.
    destruct (execCreateTable_ok _ He) as (st0 & H0 & Hex & Hrows & Hclock & He' & Hq & _).
    rewrite H in H0. inversion H0; subst st0.
    destruct (execCreateTable_same _ _ _ H) as (_ & _ & _ & _ & _ & Hp).
    unfold keeps, grows, one_row_per_version. splits; auto; try congruence; try lia.
    all: try (exists []; now rewrite app_nil_r).
    all: try (now apply rows_wf_rows).
    all: try (now rewrite Hrows).
Qed.

Lemma execInsert_keeps (v : Z) (u : bool) (c : string) (st st' : Store)
    (err : option error) :
  0 <= v -> execInsert v u c st = (err, st') -> keeps st st'.
Proof.
  intros Hv H. destruct err as [e|].
  - apply execInsert_err in H as [-> _]. apply keeps_refl.
  - pose proof (execInsert_ok _ _ _ _ _ H) as (Hex & Hrows & Hclock & He & Hq & _ & Hnew).
    destruct (execInsert_same _ _ _ _ _ _ H) as (_ & _ & Hp).
    unfold keeps, grows, one_row_per_version. splits; auto; try lia.
    + eauto.
    + intros Hwf. now apply (execInsert_wf _ _ _ _ _ Hwf Hv H).
    + intros Hnd. rewrite Hrows, map_app. apply NoDup_app; [assumption| |].
      * repeat constructor. intros [].
      * intros a Ha [<-|[]]. apply in_map_iff in Ha as (r & Hr & Hin).
        now apply (Hnew r Hin).
Qed.

Section TableKeeps.

Context {A : Type}.
Variable t : TableAdapter A.

Lemma Prepare_world (w w1 : World A) (err : option error) :
  PrepareSchemaVersions t w = (err, w1) ->
  app w1 = app w /\ execCreateTable (store w) = (err, store w1).
Proof.
  cbn. unfold TableAdapter_PrepareSchemaVersions.
  destruct (execCreateTable (store w)) as [e st]. intros H; inversion H. auto.
Qed.

Lemma Query_world (w w2 : World A) (r : Z * option error) :
  QuerySchemaVersion t w = (r, w2) -> w2 = w.
Proof.
  cbn. unfold TableAdapter_QuerySchemaVersion.
  destruct (scanLatestVersion (store w)) as [v [[|s]|]]; intros H; now inversion H.
Qed.

Lemma Insert_world (v : Z) (u : bool) (c : string) (w w1 : World A)
    (err : option error) :
  InsertSchemaVersion t v u c w = (err, w1) ->
  app w1 = app w /\ execInsert v u c (store w) = (err, store w1).
Proof.
  cbn. unfold TableAdapter_InsertSchemaVersion.
  destruct (execInsert v u c (store w)) as [e st]. intros H; inversion H. auto.
Qed.

(** A step of either loop changes the store by its insert at most. *)
Lemma upStep_keeps (v : Z) (m : Migration (World A)) (w w' : World A)
    (res : option error) (tr : list call) :
  log_framed t -> (forall w0, store (snd (Up m w0)) = store w0) -> 0 <= v ->
  upStep t v m w = (res, w', tr) -> keeps (store w) (store w').
Proof.
  intros Hlog Hup Hv H.
  apply upStep_table in H; [|assumption..].
  destruct H as [(e & _ & _ & ->)|[(e & _ & _ & H)|(_ & _ & H)]].
  - apply keeps_refl.
  - eapply execInsert_keeps; eassumption.
  - eapply execInsert_keeps; eassumption.
Qed.

Lemma downStep_keeps (v : Z) (m : Migration (World A)) (w w' : World A)
    (res : option error) (tr : list call) :
  log_framed t -> (forall w0, store (snd (Down m w0)) = store w0) -> 0 <= v ->
  downStep t v m w = (res, w', tr) -> keeps (store w) (store w').
Proof.
  intros Hlog Hdown Hv.
  unfold downStep, bind, callLog, callInsert, invoke, ret.
  pose proof (Hdown (Log t (Sprintf_d "Downgrading database to version " v) w)) as Hs.
  rewrite Log_store in Hs by assumption.
  destruct (Down m _) as [[e|] w2]; cbn [snd] in Hs.
  - intros H; inversion H; subst. rewrite Hs. apply keeps_refl.
  - destruct (InsertSchemaVersion t v false (Comment m) w2) as [e w3] eqn:E.
    apply Insert_world in E as [_ E]. rewrite Hs in E.
    apply execInsert_keeps in E; [|assumption].
    destruct e; intros H; inversion H; subst; exact E.
Qed.

Lemma steps_keep (step : Z -> Migration (World A) -> M (World A) (option error))
    (l : list (Z * Migration (World A))) :
  (forall v m w w' res tr, In (v, m) l ->
     step v m w = (res, w', tr) -> keeps (store w) (store w')) ->
  forall (w w' : World A) (res : option error) (tr : list call),
    steps step l w = (res, w', tr) -> keeps (store w) (store w').
Proof.
  induction l as [|[v m] l IH]; intros Hstep w w' res tr H.
  - inversion H. apply keeps_refl.
  - cbn [steps] in H. unfold bind in H.
    destruct (step v m w) as [[[e|] w1] t1] eqn:E.
    + inversion H; subst. eapply Hstep; [|eassumption]; now left.
    + destruct (steps step l w1) as [[res2 w2] t2] eqn:E2.
      inversion H; subst. eapply keeps_trans.
      * eapply Hstep; [|eassumption]; now left.
      * eapply IH; [|eassumption]. intros; eapply Hstep; [|eassumption]; now right.
Qed.

End TableKeeps.

(** ** How the two functions start, with the worlds *)

Section Worlds.

Context {W T : Type} {AdapterT : Adapter W T}.
Variable adapter : T.

Lemma UpToVersion_worlds (targetVersion : Z) (migrations : list (Migration W))
    (w w' : W) (res : option error) (tr : list call) :
  UpToVersion adapter targetVersion migrations w = (res, w', tr) ->
  (exists e, PrepareSchemaVersions adapter w = (Some e, w')
             /\ res = Some (Errorf_s "error preparing schema versions: " e)
             /\ tr = [CallPrepare (Some e)])
  \/ (exists w1 v e, PrepareSchemaVersions adapter w = (None, w1)
                     /\ QuerySchemaVersion adapter w1 = ((v, Some e), w')
                     /\ res = Some (Errorf_s "error querying current schema version: " e)
                     /\ tr = [CallPrepare None; CallQuery (v, Some e)])
  \/ (exists w1 currentVersion w2,
        PrepareSchemaVersions adapter w = (None, w1)
        /\ QuerySchemaVersion adapter w1 = ((currentVersion, None), w2)).
Proof.
  unfold UpToVersion, bind, callPrepare, callQuery, invoke, ret.
  destruct (PrepareSchemaVersions adapter w) as [[e|] w1] eqn:Hp.
  - intros H; inversion H; subst. left. exists e. auto.
  - destruct (QuerySchemaVersion adapter w1) as [[v [e|]] w2] eqn:Hq.
    + intros H; inversion H; subst. right; left. exists w1, v, e. auto.
    + intros _. right; right. exists w1, v, w2. auto.
Qed.

Lemma DownToVersion_worlds (targetVersion : Z) (migrations : list (Migration W))
    (w w' : W) (res : option error) (tr : list call) :
  DownToVersion adapter targetVersion migrations w = (res, w', tr) ->
  (exists e, PrepareSchemaVersions adapter w = (Some e, w')
             /\ res = Some (Errorf_s "error preparing schema versions: " e)
             /\ tr = [CallPrepare (Some e)])
  \/ (exists w1 v e, PrepareSchemaVersions adapter w = (None, w1)
                     /\ QuerySchemaVersion adapter w1 = ((v, Some e), w')
                     /\ res = Some (Errorf_s "error querying current schema version: " e)
                     /\ tr = [CallPrepare None; CallQuery (v, Some e)])
  \/ (exists w1 currentVersion w2,
        PrepareSchemaVersions adapter w = (None, w1)
        /\ QuerySchemaVersion adapter w1 = ((currentVersion, None), w2)).
Proof.
  unfold DownToVersion, bind, callPrepare, callQuery, invoke, ret.
  destruct (PrepareSchemaVersions adapter w) as [[e|] w1] eqn:Hp.
  - intros H; inversion H; subst. left. exists e. auto.
  - destruct (QuerySchemaVersion adapter w1) as [[v [e|]] w2] eqn:Hq.
    + intros H; inversion H; subst. right; left. exists w1, v, e. auto.
    + intros _. right; right. exists w1, v, w2. auto.
Qed.

End Worlds.

(** ** The store of the table adapter across calls and runs *)

Section StoreKept.

Context {A : Type}.
Variable t : TableAdapter A.

(** X10.  [PrepareSchemaVersions] can be called at every start: once it
    has succeeded, a second call succeeds and changes nothing; the call
    that creates the table leaves the rows, the version read and the rest
    of the world as they were, and on a database that has the table it
    changes nothing at all. *)
Theorem PrepareSchemaVersions_idempotent (w w1 : World A) :
  PrepareSchemaVersions t w = (None, w1) ->
  PrepareSchemaVersions t w1 = (None, w1)
  /\ table_exists (store w1)
  /\ rows_of (store w1) = rows_of (store w)
  /\ recorded (store w1) = recorded (store w)
  /\ app w1 = app w
  /\ (table_exists (store w) -> w1 = w).
Proof.
  intros Hp.
  pose proof (Prepare_inv _ _ _ _ Hp) as He. cbn in He.
  destruct (Prepare_ok t w He) as (w0 & Hp0 & Hex & Hrows & _ & He1 & _ & Hsame).
  rewrite Hp in Hp0. inversion Hp0; subst w0; clear Hp0.
  destruct (Prepare_world _ _ _ _ Hp) as [Happ _].
  splits; auto.
  - destruct (Prepare_ok t w1 He1) as (w2 & Hp2 & _ & _ & _ & _ & _ & Hsame2).
    rewrite Hp2. f_equal.
    destruct (Prepare_world _ _ _ _ Hp2) as [Happ2 _].
    specialize (Hsame2 Hex). destruct w1, w2. cbn in *. congruence.
  - now destruct (Prepare_same t _ _ _ Hp) as (_ & _ & Hrec & _).
  - intros Hex0. specialize (Hsame Hex0). destruct w, w1. cbn in *. congruence.
Qed.

(** X11.  Neither [UpToVersion] nor [DownToVersion] ever changes or
    removes a row, whether the run succeeds or fails: the rows the table
    held are the first rows it holds afterwards, in the same order.  The
    faults of the driver are as before, rows that carried versions from 0
    up and times that are not after the clock still do, and a table without
    two rows of the same version is still one. *)
Theorem runs_keep_store
    (migrations : list (Migration (World A))) (targetVersion : Z)
    (w w' : World A) (res : option error) (tr : list call) :
  Framed t migrations ->
  UpToVersion t targetVersion migrations w = (res, w', tr)
  \/ DownToVersion t targetVersion migrations w = (res, w', tr) ->
  (exists new, rows_of (store w') = rows_of (store w) ++ new)
  /\ ExecErr (store w') = ExecErr (store w)
  /\ QueryErr (store w') = QueryErr (store w)
  /\ (rows_wf (store w) -> rows_wf (store w'))
  /\ (one_row_per_version (store w) -> one_row_per_version (store w')).
Proof.
  intros HF Hrun.
  pose proof (frame_log _ _ HF) as Hlog.
  assert (keeps (store w) (store w')) as Hk.
  { destruct Hrun as [Hrun|Hrun].
    - destruct (UpToVersion_worlds _ _ _ _ _ _ _ Hrun)
        as [(e & Hp & _)|[(w1 & v & e & Hp & Hq & _)|(w1 & C & w2 & Hp & Hq)]].
      + apply Prepare_world in Hp as [_ Hp]. eapply execCreateTable_keeps, Hp.
      + apply Prepare_world in Hp as [_ Hp]. apply Query_world in Hq. subst w'.
        eapply execCreateTable_keeps, Hp.
      + rewrite (UpToVersion_steps _ _ _ _ _ _ _ Hp Hq) in Hrun.
        apply Prepare_world in Hp as [_ Hp]. apply Query_world in Hq as ->.
        destruct (steps _ _ _) as [[res0 w3] tr0] eqn:E.
        inversion Hrun; subst res w' tr; clear Hrun.
        eapply keeps_trans; [eapply execCreateTable_keeps, Hp|].
        apply steps_keep in E.
        * now rewrite Log_store in E.
        * intros v m x x' r0 t0 Hin. apply filter_In in Hin as [Hin _].
          apply upStep_keeps; [assumption| |].
          -- intros w0. apply (frame_up _ _ HF). eapply indexed_In_elem, Hin.
          -- apply indexed_In in Hin. lia.
    - destruct (DownToVersion_worlds _ _ _ _ _ _ _ Hrun)
        as [(e & Hp & _)|[(w1 & v & e & Hp & Hq & _)|(w1 & C & w2 & Hp & Hq)]].
      + apply Prepare_world in Hp as [_ Hp]. eapply execCreateTable_keeps, Hp.
      + apply Prepare_world in Hp as [_ Hp]. apply Query_world in Hq. subst w'.
        eapply execCreateTable_keeps, Hp.
      + rewrite (DownToVersion_steps _ _ _ _ _ _ _ Hp Hq) in Hrun.
        apply Prepare_world in Hp as [_ Hp]. apply Query_world in Hq as ->.
        destruct (steps _ _ _) as [[res0 w3] tr0] eqn:E.
        inversion Hrun; subst res w' tr; clear Hrun.
        eapply keeps_trans; [eapply execCreateTable_keeps, Hp|].
        apply steps_keep in E.
        * now rewrite Log_store in E.
        * intros v m x x' r0 t0 Hin. apply in_rev in Hin.
          apply filter_In in Hin as [Hin _].
          apply downStep_keeps; [assumption| |].
          -- intros w0. apply (frame_down _ _ HF). eapply indexed_In_elem, Hin.
          -- apply indexed_In in Hin. lia. }
  destruct Hk as ((Hnew & He & Hq & _ & _) & Hwf & Hnd & _). auto.
Qed.

(** X3.  When the driver fails, at the creation of the table or at the
    query of the version, [UpToVersion] and [DownToVersion] both return the
    error of the driver behind a message that names the step; they call no
    body, write no log message and ask for no record, and they leave the
    rows and the rest of the world as they were. *)
Theorem driver_faults
    (migrations : list (Migration (World A))) (targetVersion : Z)
    (w : World A) (e : error) :
  ExecErr (store w) = Some e
  \/ (ExecErr (store w) = None /\ QueryErr (store w) = Some e /\ e <> ErrNoRows) ->
  exists w' tr msg,
    UpToVersion t targetVersion migrations w
    = (Some (errorString (msg +++ Error e)), w', tr)
    /\ DownToVersion t targetVersion migrations w
       = (Some (errorString (msg +++ Error e)), w', tr)
    /\ ((msg = "error preparing schema versions: "
         /\ tr = [CallPrepare (Some e)])
        \/ (msg = "error querying current schema version: "
            /\ tr = [CallPrepare None; CallQuery (0, Some e)]))
    /\ rows_of (store w') = rows_of (store w)
    /\ app w' = app w.
Proof.
  intros [He|(He & Hq & Hne)].
  - exists (with_store w (store w)), [CallPrepare (Some e)],
           "error preparing schema versions: ".
    assert (PrepareSchemaVersions t w = (Some e, with_store w (store w))) as Hp.
    { cbn. unfold TableAdapter_PrepareSchemaVersions, execCreateTable.
      now rewrite He. }
    splits; auto.
    + unfold UpToVersion, bind, callPrepare, invoke. now rewrite Hp.
    + unfold DownToVersion, bind, callPrepare, invoke. now rewrite Hp.
  - destruct (Prepare_ok t w He) as (w1 & Hp & _ & Hrows & _ & _ & Hq1 & _).
    destruct (Prepare_world _ _ _ _ Hp) as [Happ _].
    assert (QuerySchemaVersion t w1 = ((0, Some e), w1)) as Hquery.
    { cbn. unfold TableAdapter_QuerySchemaVersion, scanLatestVersion.
      rewrite Hq1, Hq. destruct e; [now elim Hne | reflexivity]. }
    exists w1, [CallPrepare None; CallQuery (0, Some e)],
           "error querying current schema version: ".
    splits; auto.
    + unfold UpToVersion, bind, callPrepare, callQuery, invoke.
      now rewrite Hp, Hquery.
    + unfold DownToVersion, bind, callPrepare, callQuery, invoke.
      now rewrite Hp, Hquery.
Qed.

End StoreKept.

(** ** Upgrades that resume, are refused a record, or are run again *)

Section UpgradeAgain.

Context {A : Type}.
Variable t : TableAdapter A.

(** X1.  An [UpToVersion] that succeeds resumes after the version [C] the
    store gives for the current one: after the preamble it makes, for the
    versions [C + 1] to [min(T, len)] in ascending order, the calls of a
    step (log message, upgrade, record with the direction [true]), and the
    world it leaves is the one these calls leave, one after the other.
    When every record comes a second at least after the one before, the
    version read back is [max(C, min(T, len))]. *)
Theorem UpToVersion_resumes
    (migrations : list (Migration (World A))) (targetVersion : Z)
    (w w' : World A) (tr : list call) :
  Framed t migrations -> wf (store w) -> paced (store w) ->
  UpToVersion t targetVersion migrations w = (None, w', tr) ->
  let C := recorded (store w) in
  let k := Z.min targetVersion (Z.of_nat (List.length migrations)) in
  tr = preamble C
       ++ flat_map upCalls
            (indexed C (skipn (Z.to_nat C)
                          (firstn (Z.to_nat targetVersion) migrations)))
  /\ bodies tr = map (fun v => CallUp v None) (versions C k)
  /\ recorded (store w') = Z.max C k
  /\ QuerySchemaVersion t w' = ((Z.max C k, None), w')
  /\ w' = fold_left (afterUpStep t)
            (indexed C (skipn (Z.to_nat C)
                          (firstn (Z.to_nat targetVersion) migrations)))
            (Log t (Sprintf_d "Current database version is " C)
               (snd (PrepareSchemaVersions t w))).
Proof.
  intros HF Hwf Hpc Hrun C k.
  assert (w' = fold_left (afterUpStep t)
                 (indexed C (skipn (Z.to_nat C)
                               (firstn (Z.to_nat targetVersion) migrations)))
                 (Log t (Sprintf_d "Current database version is " C)
                    (snd (PrepareSchemaVersions t w)))) as Hworld.
  { destruct (UpToVersion_cases _ _ _ _ _ _ _ Hrun)
      as [(e & He & _)|[(v & e & He & _)|(w1 & C0 & w2 & Hp & Hq)]];
      try discriminate.
    destruct (Prepare_same t _ _ _ Hp) as (_ & _ & Hrec1 & _).
    pose proof (Prepare_inv _ _ _ _ Hp) as He. cbn in He.
    destruct (Prepare_ok t w He) as (w0 & Hp0 & _ & _ & _ & _ & Hq1 & _).
    rewrite Hp in Hp0. inversion Hp0; subst w0; clear Hp0.
    assert (QueryErr (store w1) <> Some ErrNoRows) as Hqs1
      by (rewrite Hq1; apply Hwf).
    destruct (Query_inv _ _ _ _ Hqs1 Hq) as (-> & _ & _ & HC).
    assert (C0 = C) as -> by (unfold C; congruence).
    pose proof (recorded_nonneg _ (proj1 Hwf)) as Hnn. fold C in Hnn.
    pose proof Hrun as Hrun'.
    rewrite (UpToVersion_steps _ _ _ _ _ _ _ Hp Hq) in Hrun'.
    rewrite pending_slice in Hrun'.
    replace (Z.max C 0) with C in Hrun' by lia.
    rewrite !Z.sub_0_r in Hrun'.
    destruct (steps _ _ _) as [[res0 w3] tr0] eqn:E.
    injection Hrun' as Hr Hw _. subst res0 w3.
    rewrite Hp. cbn [snd]. eapply steps_up_world, E. }
  destruct (UpToVersion_table_run _ _ _ _ _ _ _ HF Hwf Hpc Hrun)
    as [(e0 & He0 & _)|(C0 & tr0 & HC & Hnn & He & Hq & -> & Hup)]; [discriminate|].
  fold C in HC. subst C0.
  destruct Hup as (n & tail & Hn & -> & Hwf3 & Hex3 & Hrec3 & He3 & Hq3 & Hrows3 & Hcases).
  destruct Hcases as [(_ & Hlen & ->)|[(e1 & He1 & _)|(m & e1 & _ & He1 & _)]];
    try discriminate.
  set (l := skipn (Z.to_nat C) (firstn (Z.to_nat targetVersion) migrations)) in *.
  assert (Z.of_nat (List.length l) = Z.max C k - C) as Hl.
  { unfold l, k. rewrite length_skipn, length_firstn. lia. }
  rewrite Hlen, firstn_all, app_nil_r in *.
  assert (recorded (store w') = Z.max C k) as Hrec by lia.
  splits.
  - reflexivity.
  - rewrite bodies_preamble, bodies_upCalls.
    unfold versions.
    replace (Z.to_nat (C + Z.of_nat (List.length l) - C)) with (Z.to_nat (k - C)) by lia.
    reflexivity.
  - exact Hrec.
  - rewrite (Query_ok t w') by congruence. now rewrite Hrec.
  - exact Hworld.
Qed.


(** X13.  A step that failed is run again by the next run, body
    included.  After a run of [UpToVersion] in which the upgrade to version
    [V] failed, or its record was refused, the same call again reads
    version [V - 1] and, after the preamble, starts with the log message
    and the upgrade of [V]. *)
Theorem UpToVersion_retry
    (migrations : list (Migration (World A))) (targetVersion : Z)
    (w w1 w2 : World A) (res1 res2 : option error) (tr1 tr2 : list call)
    (V : Z) :
  Framed t migrations -> wf (store w) -> paced (store w) ->
  UpToVersion t targetVersion migrations w = (res1, w1, tr1) ->
  (exists e, In (CallUp V (Some e)) tr1)
  \/ (exists u s e, In (CallInsert V u s (Some e)) tr1) ->
  UpToVersion t targetVersion migrations w1 = (res2, w2, tr2) ->
  exists r rest,
    tr2 = preamble (V - 1)
          ++ CallLog (Sprintf_d "Upgrading database to version " V)
          :: CallUp V r :: rest.
Proof.
  intros HF Hwf Hpc Hrun1 Hfail Hrun2.
  pose proof (frame_log _ _ HF) as Hlog.
  destruct (UpToVersion_table_run _ _ _ _ _ _ _ HF Hwf Hpc Hrun1)
    as [(e0 & _ & Hb & Hi)|(C & tr0 & HC & Hnn & He & Hq & -> & Hup)].
  { exfalso. destruct Hfail as [(e & Hin)|(u & s & e & Hin)].
    - assert (In (CallUp V (Some e)) (bodies tr1)) as Hf by (apply filter_In; auto).
      rewrite Hb in Hf. elim Hf.
    - assert (In (CallInsert V u s (Some e)) (inserts tr1)) as Hf
        by (apply filter_In; auto).
      rewrite Hi in Hf. elim Hf. }
  (* the failed step is a step of the list, and the store is at V - 1 *)
  assert (exists m, nth_error migrations (Z.to_nat (V - 1)) = Some m
                    /\ C < V <= targetVersion) as (m & Hm & HV).
  { destruct (UpToVersion_cases _ _ _ _ _ _ _ Hrun1)
      as [(e & _ & Ht)|[(v0 & e & _ & Ht)|(wa & C' & wb & Hp & Hq')]].
    1,2: exfalso; destruct Hfail as [(e' & Hin)|(u & s & e' & Hin)];
         rewrite Ht in Hin; cbn in Hin; intuition discriminate.
    rewrite (UpToVersion_steps _ _ _ _ _ _ _ Hp Hq') in Hrun1.
    destruct (steps _ _ _) as [[r0 w3] t0] eqn:E.
    injection Hrun1 as Hr Hw Ht.
    assert (C' = C /\ t0 = tr0) as [-> ->]
      by (cbn in Ht; inversion Ht; auto).
    assert (exists c, In c tr0 /\ (exists r, c = CallUp V r
                                   \/ exists u s, c = CallInsert V u s r)) as (c & Hc & Hsh).
    { destruct Hfail as [(e & Hin)|(u & s & e & Hin)];
        (apply in_app_or in Hin as [Hin|Hin]; [cbn in Hin; intuition discriminate|]);
        eexists; (split; [exact Hin|]); eexists; [left|right]; eauto. }
    destruct (steps_up_calls _ _ _ _ _ _ _ E Hc) as (v0 & m0 & Hl & Hsh0).
    apply pending_In in Hl as (Hb0 & Hr0 & Hn0).
    assert (v0 = V) as ->.
    { destruct Hsh as (r & [->|(u & s & ->)]);
        destruct Hsh0 as [Hs0|[(r1 & Hs0)|(r1 & Hs0 & _)]]; inversion Hs0; reflexivity. }
    exists m0. split; [assumption | lia]. }
  assert (recorded (store w1) = V - 1 /\ rows_wf (store w1)
          /\ table_exists (store w1)
          /\ ExecErr (store w1) = None /\ QueryErr (store w1) = None)
    as (Hrec & Hwf1 & Hex1 & He1 & Hq1).
  { destruct Hup as (n & tail & Hn & -> & Hwf3 & Hex3 & Hrec3 & He3 & Hq3 & Hrows3 & Hcases).
    splits; try congruence; auto.
    assert (forall c, In c (preamble C ++ flat_map upCalls (indexed C (firstn n
              (skipn (Z.to_nat C) (firstn (Z.to_nat targetVersion) migrations))))) ->
            (forall v e, c <> CallUp v (Some e))
            /\ (forall v u s e, c <> CallInsert v u s (Some e))) as Hpre.
    { intros c Hc. apply in_app_or in Hc as [Hc|Hc].
      - cbn in Hc. destruct Hc as [<-|[<-|[<-|[]]]]; split; intros; discriminate.
      - apply upCalls_In in Hc as (v0 & m0 & _ & [-> | [-> | ->]]);
          split; intros; discriminate. }
    rewrite app_assoc in Hfail.
    destruct Hcases as [(_ & _ & ->)|[(e1 & _ & ->)|(m' & e1 & _ & _ & -> & _)]].
    - exfalso. rewrite app_nil_r in Hfail.
      destruct Hfail as [(e & Hin)|(u & s & e & Hin)];
        apply Hpre in Hin as [H1 H2]; first [eapply H1; reflexivity | eapply H2; reflexivity].
    - destruct Hfail as [(e & Hin)|(u & s & e & Hin)];
        (apply in_app_or in Hin as [Hin|Hin];
         [apply Hpre in Hin as [H1 H2]; exfalso; first [eapply H1; reflexivity | eapply H2; reflexivity]|]);
        destruct Hin as [Hin|[Hin|[]]]; try discriminate.
      inversion Hin. lia.
    - destruct Hfail as [(e & Hin)|(u & s & e & Hin)];
        (apply in_app_or in Hin as [Hin|Hin];
         [apply Hpre in Hin as [H1 H2]; exfalso; first [eapply H1; reflexivity | eapply H2; reflexivity]|]);
        destruct Hin as [Hin|[Hin|[Hin|[]]]]; try discriminate.
      inversion Hin. lia. }
  (* the second run *)
  destruct (Prepare_ok t w1 He1) as (wB & Hp2 & HexB & _ & _ & _ & HqB & Hsame).
  specialize (Hsame Hex1).
  pose proof (Query_ok t wB ltac:(congruence) HexB) as Hq2.
  rewrite Hsame, Hrec in Hq2.
  rewrite (UpToVersion_steps t targetVersion _ migrations w1 wB wB Hp2 Hq2) in Hrun2.
  rewrite pending_slice in Hrun2.
  replace (Z.max (V - 1) 0) with (V - 1) in Hrun2 by lia.
  rewrite !Z.sub_0_r in Hrun2.
  pose proof (hd_error_skipn (Z.to_nat (V - 1))
                (firstn (Z.to_nat targetVersion) migrations)) as Hhd.
  rewrite nth_error_firstn in Hhd.
  destruct (Nat.ltb_spec (Z.to_nat (V - 1)) (Z.to_nat targetVersion)); [|lia].
  rewrite Hm in Hhd.
  destruct (skipn _ (firstn _ migrations)) as [|m' rest]; [discriminate|].
  inversion Hhd; subst m'.
  cbn [indexed steps] in Hrun2. unfold bind in Hrun2.
  replace (V - 1 + 1) with V in Hrun2 by lia.
  destruct (upStep t V m _) as [[r1 wC] t1] eqn:E1.
  assert (exists r rest1, t1 = CallLog (Sprintf_d "Upgrading database to version " V)
                               :: CallUp V r :: rest1) as (r & rest1 & ->).
  { apply upStep_shape in E1 as [(_ & ->)|[(e0 & _ & ->)|(e0 & _ & ->)]];
      eexists _, _; reflexivity. }
  destruct r1 as [e1|].
  - inversion Hrun2; subst. exists r, (rest1 ++ []). reflexivity.
  - destruct (steps _ _ wC) as [[r2 wD] t2].
    inversion Hrun2; subst. exists r, (rest1 ++ t2). reflexivity.
Qed.

End UpgradeAgain.

(** ** The further properties at the inputs of the scenario *)


(** The second [Up] of the test resumes after version 1, and leaves the
    flags of the three closures set. *)
Lemma UpToVersion_resumes_witness :
  bodies (snd (UpToVersion testAdapter 3 testMigrations worldAfterUp1))
  = [CallUp 2 None; CallUp 3 None]
  /\ recorded (store worldAfterUp2) = 3
  /\ up (app worldAfterUp2) = [true; true; true].
Proof.
  destruct (UpToVersion_resumes testAdapter testMigrations 3 worldAfterUp1 worldAfterUp2
              (snd (UpToVersion testAdapter 3 testMigrations worldAfterUp1)))
    as (_ & H2 & H3 & _ & H5).
  - exact testFramed.
  - exact worldAfterUp1_wf.
  - now apply everySecond_paced.
  - vm_compute. reflexivity.
  - split; [exact H2 | split; [exact H3|]].
    rewrite H5. reflexivity.
Defined.


(** A driver that fails every statement. *)
Lemma driver_faults_witness :
  exists w' tr msg,
    UpToVersion testAdapter 3 testMigrations brokenWorld
    = (Some (errorString (msg +++ "mock error")), w', tr)
    /\ app w' = app brokenWorld.
Proof.
  destruct (driver_faults testAdapter testMigrations 3 brokenWorld
              (errorString "mock error"))
    as (w' & tr & msg & H1 & _ & _ & _ & H5).
  - left. reflexivity.
  - exists w', tr, msg. split; [exact H1 | exact H5].
Defined.

(** Target 1 at version 3. *)
Lemma UpToVersion_target_not_above_witness :
  UpToVersion testAdapter 1 testMigrations worldAfterUp2
  = (None, Log testAdapter "Current database version is 3" worldAfterUp2, preamble 3).
Proof.
  destruct (UpToVersion_target_not_above testAdapter 1 3 testMigrations
              worldAfterUp2 worldAfterUp2 worldAfterUp2) as (H & _).
  - reflexivity.
  - reflexivity.
  - left. lia.
  - exact H.
Defined.

(** Targets 7 and -2 with the three migrations of the test. *)
Lemma targets_clamp_witness :
  UpToVersion testAdapter 7 testMigrations aheadWorld
  = migrate_Up testAdapter testMigrations aheadWorld
  /\ DownToVersion testAdapter (-2) testMigrations aheadWorld
     = DownToVersion testAdapter 0 testMigrations aheadWorld.
Proof.
  apply (targets_clamp testAdapter 7 (-2) testMigrations).
  - cbn. lia.
  - lia.
Defined.

(** From version 5 down to 1 with the three migrations of the test: the
    downgrades of versions 3 and 2 run, in that order. *)
Lemma DownToVersion_success_calls_witness :
  bodies (snd (DownToVersion testAdapter 1 testMigrations aheadWorld))
  = [CallDown 3 None; CallDown 2 None]
  /\ inserts (snd (DownToVersion testAdapter 1 testMigrations aheadWorld))
     = [CallInsert 3 false "example comment 3" None;
        CallInsert 2 false "example comment 2" None].
Proof.
  pose (r := DownToVersion testAdapter 1 testMigrations aheadWorld).
  destruct (DownToVersion_success_calls testAdapter 1 5 testMigrations
              aheadWorld aheadWorld aheadWorld (world_after r) (snd r))
    as (H1 & H2).
  - reflexivity.
  - reflexivity.
  - lia.
  - vm_compute. reflexivity.
  - split; [exact H2 | unfold r in H1; rewrite H1; reflexivity].
Defined.

(** From version 5 down to 0 when the downgrade of the second migration
    fails. *)
Lemma DownToVersion_body_failure_witness :
  fst (fst (DownToVersion testAdapter 0 [migration1; migrationBad; migration3]
              aheadWorld))
  = Some (errorString "error upgrading database to version 2: mock error").
Proof.
  pose (r := DownToVersion testAdapter 0 [migration1; migrationBad; migration3]
               aheadWorld).
  destruct (DownToVersion_body_failure testAdapter 0
              [migration1; migrationBad; migration3] aheadWorld
              (world_after r) (fst (fst r)) (snd r) 2 (errorString "mock error"))
    as (H1 & _).
  - vm_compute. reflexivity.
  - vm_compute. auto 10.
  - exact H1.
Defined.

(** The upgrade that fails in the first [Up] of the test is the one of the
    second migration of the list, above the version read. *)
Lemma UpToVersion_calls_witness :
  exists C m,
    In (CallQuery (C, None)) (snd (UpToVersion testAdapter 3 testMigrations freshWorld))
    /\ C < 2 <= 3 /\ 1 <= 2
    /\ nth_error testMigrations (Z.to_nat (2 - 1)) = Some m.
Proof.
  pose (r := UpToVersion testAdapter 3 testMigrations freshWorld).
  destruct (UpToVersion_calls testAdapter 3 testMigrations freshWorld
              (world_after r) (fst (fst r)) (snd r)) as (H1 & _).
  - vm_compute. reflexivity.
  - apply (H1 2 (Some (errorString "mock error"))). vm_compute. auto 10.
Defined.

(** The record of the downgrade from version 3 carries [false] and the
    comment of the third migration. *)
Lemma DownToVersion_calls_witness :
  false = false
  /\ In (CallDown 3 None) (snd (DownToVersion testAdapter 1 testMigrations aheadWorld))
  /\ exists m, nth_error testMigrations (Z.to_nat (3 - 1)) = Some m
               /\ "example comment 3" = Comment m.
Proof.
  pose (r := DownToVersion testAdapter 1 testMigrations aheadWorld).
  destruct (DownToVersion_calls testAdapter 1 testMigrations aheadWorld
              (world_after r) (fst (fst r)) (snd r)) as (_ & H2 & _).
  - vm_compute. reflexivity.
  - apply (H2 3 false "example comment 3" None). vm_compute. auto 10.
Defined.

(** The table is created by the first call; the second changes nothing. *)
Lemma PrepareSchemaVersions_idempotent_witness :
  PrepareSchemaVersions testAdapter (snd (PrepareSchemaVersions testAdapter freshWorld))
  = (None, snd (PrepareSchemaVersions testAdapter freshWorld))
  /\ table_exists (store (snd (PrepareSchemaVersions testAdapter freshWorld))).
Proof.
  destruct (PrepareSchemaVersions_idempotent testAdapter freshWorld
              (snd (PrepareSchemaVersions testAdapter freshWorld)))
    as (H1 & H2 & _).
  - reflexivity.
  - split; [exact H1 | exact H2].
Defined.

(** The first [Up] of the test fails and has added a row. *)
Lemma runs_keep_store_witness :
  (exists new, rows_of (store worldAfterUp1) = rows_of (store freshWorld) ++ new)
  /\ ExecErr (store worldAfterUp1) = ExecErr (store freshWorld).
Proof.
  pose (r := UpToVersion testAdapter 3 testMigrations freshWorld).
  destruct (runs_keep_store testAdapter testMigrations 3 freshWorld
              (world_after r) (fst (fst r)) (snd r)) as (H1 & H2 & _).
  - exact testFramed.
  - left. vm_compute. reflexivity.
  - split; [exact H1 | exact H2].
Defined.

(** The second [Up] of the test starts with the upgrade that failed in the
    first. *)
Lemma UpToVersion_retry_witness :
  exists r rest,
    snd (UpToVersion testAdapter 3 testMigrations worldAfterUp1)
    = preamble (2 - 1)
      ++ CallLog (Sprintf_d "Upgrading database to version " 2)
      :: CallUp 2 r :: rest.
Proof.
  pose (r1 := UpToVersion testAdapter 3 testMigrations freshWorld).
  pose (r2 := UpToVersion testAdapter 3 testMigrations worldAfterUp1).
  apply (UpToVersion_retry testAdapter testMigrations 3 freshWorld
           worldAfterUp1 (world_after r2) (fst (fst r1)) (fst (fst r2))
           (snd r1) (snd r2) 2).
  - exact testFramed.
  - exact freshWorld_wf.
  - now apply everySecond_paced.
  - vm_compute. reflexivity.
  - left. exists (errorString "mock error"). vm_compute. auto 10.
  - vm_compute. reflexivity.
Defined.

(** ** The rows an upgrade writes, and the downgrade on the table *)

Lemma execInsert_duplicate (v : Z) (u : bool) (c : string) (st : Store) (r : Row) :
  ExecErr st = None -> In r (rows_of st) -> version r = v ->
  execInsert v u c st = (Some errDuplicateKey, st).
Proof.
  intros He Hr Hv. unfold execInsert, rows_of in *. rewrite He.
  destruct (schema_versions st) as [rows|]; [|elim Hr].
  assert (existsb (fun r0 => version r0 =? v) rows = true) as ->; [|reflexivity].
  apply existsb_exists. exists r. split; [assumption|]. now apply Z.eqb_eq.
Qed.

Lemma recorded_row (st : Store) :
  recorded st <> 0 -> exists r, In r (rows_of st) /\ version r = recorded st.
Proof.
  rewrite recorded_rows. destruct (latest (tie st) (rows_of st)) as [r|] eqn:E.
  - intros _. exists r. split; [eapply latest_max, E | reflexivity].
  - intros H. now elim H.
Qed.

Section RowsWritten.

Context {A : Type}.
Variable t : TableAdapter A.

Lemma steps_up_rows (l : list (Z * Migration (World A))) :
  forall (w w' : World A) (tr : list call),
    log_framed t ->
    (forall v m w0, In (v, m) l -> store (snd (Up m w0)) = store w0) ->
    steps (upStep t) l w = (None, w', tr) ->
    rows_of (store w')
    = rows_of (store w)
      ++ newRows (elapse (store w)) (List.length (rows_of (store w)))
           (clock (store w)) true l.
Proof.
  induction l as [|[v m] l IH]; intros w w' tr Hlog Hup H.
  - inversion H. cbn. now rewrite app_nil_r.
  - cbn [steps] in H. unfold bind in H.
    destruct (upStep t v m w) as [[[e|] w1] t1] eqn:E; [inversion H|].
    destruct (steps _ l w1) as [[res2 w2] t2] eqn:E2.
    inversion H; subst res2 w' tr; clear H.
    apply upStep_table in E; [|assumption|intros; eapply Hup; now left].
    destruct E as [(e & He & _)|[(e & He & _)|(_ & _ & Hins)]]; try discriminate.
    destruct (execInsert_same _ _ _ _ _ _ Hins) as (Hel & _ & _).
    apply execInsert_ok in Hins as (_ & Hrows & Hclock & _).
    apply IH in E2; [|assumption|intros; eapply Hup; right; eassumption].
    rewrite E2, Hel, Hclock, Hrows, length_app, Nat.add_1_r.
    cbn [newRows List.length]. now rewrite <- app_assoc.
Qed.

(** X15.  The rows an [UpToVersion] that succeeds writes: after the rows
    the table held, one row for each version from [C + 1] to [min(T, len)],
    in ascending order, with the direction [true], the comment of the
    migration of that version and, for its time, the time of the row
    written before it and the seconds gone by since: the same time when
    none has. *)
Theorem UpToVersion_rows
    (migrations : list (Migration (World A))) (targetVersion : Z)
    (w w' : World A) (tr : list call) :
  Framed t migrations -> wf (store w) ->
  UpToVersion t targetVersion migrations w = (None, w', tr) ->
  let C := recorded (store w) in
  let todo := indexed C (skipn (Z.to_nat C)
                           (firstn (Z.to_nat targetVersion) migrations)) in
  let new := newRows (elapse (store w)) (List.length (rows_of (store w)))
               (clock (store w)) true todo in
  rows_of (store w') = rows_of (store w) ++ new
  /\ map version new
     = versions C (Z.max C (Z.min targetVersion (Z.of_nat (List.length migrations))))
  /\ map comment new = map (fun p => Comment (snd p)) todo
  /\ (forall r, In r new -> upgrade r = true /\ clock (store w) <= created_at r).
Proof.
  intros HF [Hwf Hqs] Hrun C todo new.
  pose proof (frame_log _ _ HF) as Hlog.
  destruct (UpToVersion_worlds _ _ _ _ _ _ _ Hrun)
    as [(e & _ & He & _)|[(w1 & v & e & _ & _ & He & _)|(w1 & C0 & w2 & Hp & Hq)]];
    try discriminate.
  pose proof (Prepare_inv _ _ _ _ Hp) as He. cbn in He.
  destruct (Prepare_ok t w He) as (w0 & Hp0 & Hex & Hrows & Hclock & _ & Hq1 & _).
  rewrite Hp in Hp0. inversion Hp0; subst w0; clear Hp0.
  destruct (Prepare_same t _ _ _ Hp) as (_ & _ & Hrec1 & _).
  destruct (Prepare_world _ _ _ _ Hp) as [_ Hcreate].
  destruct (execCreateTable_same _ _ _ Hcreate) as (_ & _ & Hel & _).
  assert (QueryErr (store w1) <> Some ErrNoRows) as Hqs1 by (rewrite Hq1; exact Hqs).
  destruct (Query_inv _ _ _ _ Hqs1 Hq) as (-> & _ & _ & HC).
  assert (C0 = C) as -> by (unfold C; congruence).
  pose proof (recorded_nonneg _ Hwf) as Hnn. fold C in Hnn.
  rewrite (UpToVersion_steps _ _ _ _ _ _ _ Hp Hq) in Hrun.
  rewrite pending_slice in Hrun.
  replace (Z.max C 0) with C in Hrun by lia.
  rewrite !Z.sub_0_r in Hrun. fold todo in Hrun.
  destruct (steps _ _ _) as [[res0 w3] tr0] eqn:E.
  inversion Hrun; subst res0 w' tr; clear Hrun.
  apply steps_up_rows in E; [|assumption|].
  2:{ intros v m w0 Hin. apply (frame_up _ _ HF).
      eapply firstn_incl, skipn_incl, indexed_In_elem, Hin. }
  rewrite Log_store in E by assumption.
  rewrite Hrows, Hclock, Hel in E. fold new in E.
  assert (forall (l : list (Z * Migration (World A))) g n c,
            map version (newRows g n c true l) = map fst l
            /\ map comment (newRows g n c true l) = map (fun p => Comment (snd p)) l
            /\ forall r, In r (newRows g n c true l) ->
                 upgrade r = true /\ c <= created_at r) as Hnew.
  { induction l as [|[v m] l IH]; intros g n c; [cbn; splits; auto; intros r []|].
    destruct (IH g (S n) (c + Z.of_nat (g n))) as (IH1 & IH2 & IH3).
    cbn [newRows map fst snd]. rewrite IH1, IH2. splits; auto.
    intros r [<-|Hr]; [cbn; split; [reflexivity | lia]|].
    destruct (IH3 r Hr). split; [assumption | lia]. }
  destruct (Hnew todo (elapse (store w)) (List.length (rows_of (store w)))
              (clock (store w))) as (Hv & Hc & Hu).
  fold new in Hv, Hc, Hu.
  splits; auto.
  rewrite Hv. unfold todo. rewrite indexed_fst, length_skipn, length_firstn.
  unfold versions. do 2 f_equal. lia.
Qed.

(** A step of a downgrade of the version the table holds a row of: it
    returns an error and leaves the store as it is. *)
Lemma downStep_refused (v : Z) (m : Migration (World A)) (w w' : World A)
    (res : option error) (tr : list call) (row : Row) :
  log_framed t -> (forall w0, store (snd (Down m w0)) = store w0) ->
  ExecErr (store w) = None -> In row (rows_of (store w)) -> version row = v ->
  downStep t v m w = (res, w', tr) ->
  (exists e, res = Some e) /\ store w' = store w
  /\ (forall v' r, In (CallDown v' r) tr -> v' = v)
  /\ (forall v' u s, ~ In (CallInsert v' u s None) tr).
Proof.
  intros Hlog Hdown He Hrow Hv.
  unfold downStep, bind, callLog, callInsert, invoke, ret.
  pose proof (Hdown (Log t (Sprintf_d "Downgrading database to version " v) w)) as Hd.
  rewrite Log_store in Hd by exact Hlog.
  destruct (Down m _) as [[e|] wd]; cbn [snd] in Hd.
  - intros H; inversion H; subst. splits; eauto.
    + intros v' r [Hin|[Hin|[]]]; [discriminate | now inversion Hin].
    + intros v' u s [Hin|[Hin|[]]]; discriminate.
  - destruct (InsertSchemaVersion t v false (Comment m) wd) as [ei wi] eqn:Ei.
    apply Insert_world in Ei as [_ Ei]. rewrite Hd in Ei.
    rewrite (execInsert_duplicate v false (Comment m) (store w) row He Hrow Hv) in Ei.
    inversion Ei; subst ei.
    intros H; inversion H; subst. splits; eauto.
    + intros v' r [Hin|[Hin|[Hin|[]]]]; try discriminate. now inversion Hin.
    + intros v' u s [Hin|[Hin|[Hin|[]]]]; discriminate.
Qed.

(** X14.  On the table adapter a downgrade from the version the store
    gives for the current one is never recorded.  With a target [T >= 0]
    below that version [C], and [C] within the list, [DownToVersion] always
    returns an error; the only downgrade it can call is the one of version
    [C]; no record succeeds; the rows and the version read are as before.
    The row of version [C] is in the table, and version is its primary
    key. *)
Theorem DownToVersion_table_refused
    (migrations : list (Migration (World A))) (targetVersion : Z)
    (w w' : World A) (res : option error) (tr : list call) :
  Framed t migrations -> wf (store w) ->
  0 <= targetVersion < recorded (store w) ->
  recorded (store w) <= Z.of_nat (List.length migrations) ->
  DownToVersion t targetVersion migrations w = (res, w', tr) ->
  (exists e, res = Some e)
  /\ (forall v r, In (CallDown v r) tr -> v = recorded (store w))
  /\ (forall v u s, ~ In (CallInsert v u s None) tr)
  /\ rows_of (store w') = rows_of (store w)
  /\ recorded (store w') = recorded (store w).
Proof.
  intros HF [Hwf Hqs] HT Hlen Hrun.
  pose proof (frame_log _ _ HF) as Hlog.
  set (C := recorded (store w)) in *.
  destruct (DownToVersion_worlds _ _ _ _ _ _ _ Hrun)
    as [(e & Hp & -> & ->)|[(w1 & v & e & Hp & Hq & -> & ->)|(w1 & C0 & w2 & Hp & Hq)]].
  { destruct (Prepare_same t _ _ _ Hp) as (Hr & _ & Hrec & _).
    splits; eauto; try (intros; intro Hin; cbn in Hin; intuition discriminate).
    intros v r Hin. cbn in Hin. intuition discriminate. }
  { apply Query_world in Hq. subst w'.
    destruct (Prepare_same t _ _ _ Hp) as (Hr & _ & Hrec & _).
    splits; eauto; try (intros; intro Hin; cbn in Hin; intuition discriminate).
    intros v0 r Hin. cbn in Hin. intuition discriminate. }
  destruct (Prepare_same t _ _ _ Hp) as (Hrows & _ & Hrec & _).
  pose proof (Prepare_inv _ _ _ _ Hp) as He. cbn in He.
  destruct (Prepare_ok t w He) as (w0 & Hp0 & Hex & _ & _ & He1 & Hq1 & _).
  rewrite Hp in Hp0. inversion Hp0; subst w0; clear Hp0.
  assert (QueryErr (store w1) <> Some ErrNoRows) as Hqs1 by (rewrite Hq1; exact Hqs).
  destruct (Query_inv _ _ _ _ Hqs1 Hq) as (-> & _ & _ & HC).
  assert (C0 = C) as -> by (unfold C; congruence).
  rewrite (DownToVersion_steps _ _ _ _ _ _ _ Hp Hq) in Hrun.
  rewrite pending_slice in Hrun.
  replace (Z.max targetVersion 0) with targetVersion in Hrun by lia.
  rewrite !Z.sub_0_r in Hrun.
  (* the first step is the one of version C *)
  set (slice := skipn (Z.to_nat targetVersion) (firstn (Z.to_nat C) migrations)) in Hrun.
  assert (List.length slice = Z.to_nat (C - targetVersion)) as Hsl
    by (unfold slice; rewrite length_skipn, length_firstn; lia).
  assert (slice <> []) as Hne by (intros H; rewrite H in Hsl; cbn in Hsl; lia).
  destruct (exists_last Hne) as (front & m & Hfront).
  assert (In m migrations) as Hm.
  { assert (In m slice) as Hin
      by (rewrite Hfront; apply in_or_app; right; now left).
    eapply firstn_incl, skipn_incl. exact Hin. }
  rewrite Hfront, indexed_app, rev_app_distr in Hrun.
  rewrite Hfront, length_app in Hsl. cbn [List.length] in Hsl.
  cbn [indexed rev Datatypes.app steps] in Hrun.
  replace (targetVersion + Z.of_nat (List.length front) + 1) with C in Hrun by lia.
  unfold bind in Hrun.
  set (w2 := Log t (Sprintf_d "Current database version is " C) w1) in Hrun.
  assert (store w2 = store w1) as Hs2 by (apply Log_store; exact Hlog).
  destruct (downStep t C m w2) as [[r1 w3] t1] eqn:E1.
  (* that step fails and leaves the store as it is *)
  destruct (recorded_row (store w1)) as (row & Hrow & Hv).
  { rewrite Hrec. fold C. lia. }
  rewrite Hrec in Hv. fold C in Hv.
  apply (downStep_refused C m w2 w3 r1 t1 row) in E1;
    [|exact Hlog|intros w0; now apply (frame_down _ _ HF)
     |now rewrite Hs2|now rewrite Hs2|exact Hv].
  destruct E1 as ((e & ->) & Hs3 & Hdowns & Hins).
  inversion Hrun; subst res w' tr; clear Hrun.
  rewrite app_nil_r.
  splits.
  - eauto.
  - intros v r0 Hin. cbn [preamble Datatypes.app In] in Hin.
    destruct Hin as [Hin|[Hin|[Hin|Hin]]]; try discriminate Hin.
    eapply Hdowns, Hin.
  - intros v u s Hin. cbn [preamble Datatypes.app In] in Hin.
    destruct Hin as [Hin|[Hin|[Hin|Hin]]]; try discriminate Hin.
    eapply Hins, Hin.
  - congruence.
  - congruence.
Qed.

End RowsWritten.

(** ** Migrations made with [ExecQueries] *)

Section QueriesAsBodies.

Context {W T : Type} {AdapterT : Adapter W T}.
Variable adapter : T.
Variable ExecContext : string -> W -> option error * W.



End QueriesAsBodies.

(** ** The further properties at the inputs of the tests, continued *)

Lemma worldAfterUp2_wf : wf (store worldAfterUp2).
Proof.
  split; [|discriminate]. intros r [<-|[<-|[<-|[]]]]; cbn; lia.
Qed.

(** The downgrade to version 1 after the two [Up] of the test: refused at
    version 3, the table is as the upgrades left it. *)
Lemma DownToVersion_table_refused_witness :
  (exists e, fst (fst (DownToVersion testAdapter 1 testMigrations worldAfterUp2)) = Some e)
  /\ rows_of (store worldAfterDown) = rows_of (store worldAfterUp2)
  /\ recorded (store worldAfterDown) = 3.
Proof.
  pose (r := DownToVersion testAdapter 1 testMigrations worldAfterUp2).
  destruct (DownToVersion_table_refused testAdapter testMigrations 1 worldAfterUp2
              (world_after r) (fst (fst r)) (snd r))
    as (H1 & _ & _ & H4 & H5).
  - exact testFramed.
  - exact worldAfterUp2_wf.
  - replace (recorded (store worldAfterUp2)) with 3 by reflexivity. lia.
  - replace (recorded (store worldAfterUp2)) with 3 by reflexivity. cbn. lia.
  - vm_compute. reflexivity.
  - split; [exact H1|]. split; [exact H4 | exact H5].
Defined.

(** The rows an upgrade by two migrations writes within one second on a
    database just opened: both carry the same time. *)
Lemma UpToVersion_rows_witness :
  rows_of (store (world_after
                    (UpToVersion testAdapter 5 [migration1; migration3] quickWorld)))
  = rows_of (store quickWorld)
    ++ [ {| version := 1; created_at := 0; upgrade := true;
            comment := "example comment 1" |};
         {| version := 2; created_at := 0; upgrade := true;
            comment := "example comment 3" |} ].
Proof.
  pose (r := UpToVersion testAdapter 5 [migration1; migration3] quickWorld).
  destruct (UpToVersion_rows testAdapter [migration1; migration3] 5 quickWorld
              (world_after r) (snd r))
    as [H _].
  - apply Framed_incl with (ms := testMigrations); [|exact testFramed].
    intros m [<-|[<-|[]]]; cbn; auto.
  - split; [intros x [] | discriminate].
  - vm_compute. reflexivity.
  - exact H.
Defined.

